(** * A model of the task-list backend (src/app.js)

    The server is one Express application over one SQLite connection.
    The development embeds

    - the JavaScript values and coercions the handlers rely on
      ([ToBoolean], loose equality with [1], [split], [Number]);
    - the two tables of the schema and the six SQL statements the
      handlers issue, as functions on a [database];
    - the handlers themselves, together with the event loop that runs the
      callbacks they pass to [db.run] / [db.all]: a handler's synchronous
      part only queues statements, and each callback runs after its
      statement has been executed.

    Conventions.  A JavaScript number is a double: an integer, a dyadic
    fraction, an infinity or NaN, held exactly; text is read to the
    nearest double.  The values of the relationship columns are NULL,
    INTEGER or TEXT; REAL values are left out, as is the column
    [created_at] (wall-clock time).  The [title], [description] and
    [done] fields of a body are arbitrary JavaScript values. *)

From Stdlib Require Import ZArith List String Ascii Bool Lia.
From Stdlib Require Import Decimal DecimalString DecimalPos DecimalZ.
From Stdlib Require Import Permutation Sorted.
Import ListNotations.

Local Open Scope string_scope.
Local Open Scope Z_scope.
Local Open Scope list_scope.

#[local] Set Warnings "-register-all".

(** ** JavaScript values *)

(** The Number values: [Num z] is the integer [z], [Frac m e] the
    fraction [m / 2 ^ e] with [m] odd.  (The sign of zero is not kept:
    no handler can tell [-0] from [0].) *)
Inductive number :=
| NaN
| Num (z : Z)
| Frac (m : Z) (e : positive)
| Infinity (negative : bool).

Inductive jsval :=
| JUndefined
| JNull
| JBool (b : bool)
| JNum (n : number)
| JStr (s : string)
| JArr (l : list jsval)
| JObj (fields : list (string * jsval)).

(** Decimal text of an integer: what SQLite's GROUP_CONCAT produces for an
    INTEGER value and what JavaScript prints for an integral number. *)
Definition show (z : Z) : string := NilZero.string_of_int (Z.to_int z).

(** [ToBoolean]: the test behind [!title], [done ? 1 : 0] and
    [task.child_tasks ? ... : []]. *)
Definition ToBoolean (v : jsval) : bool :=
  match v with
  | JUndefined | JNull => false
  | JBool b => b
  | JNum NaN => false
  | JNum (Num z) => negb (z =? 0)%Z
  | JNum (Frac _ _) | JNum (Infinity _) => true
  | JStr s => negb (s =? "")%string
  | JArr _ | JObj _ => true
  end.

(** *** Doubles *)

(** An integer is a double when its significant bits fit in 53 bits and
    it lies below [2 ^ 1024]. *)
Definition representable (z : Z) : bool :=
  let a := Z.abs z in
  if a =? 0 then true
  else
    let e := Z.log2 a - 52 in
    if e <=? 0 then true
    else (a mod 2 ^ e =? 0) && (Z.log2 a <? 1024).

(** [a / b] rounded to the nearest integer, ties to even. *)
Definition round_half_even (a b : Z) : Z :=
  let m := a / b in
  let r := a mod b in
  if 2 * r <? b then m
  else if b <? 2 * r then m + 1
  else if Z.even m then m else m + 1.

(** The largest [l] with [2 ^ l <= p / q]. *)
Definition floor_log2_ratio (p q : Z) : Z :=
  let l := Z.log2 p - Z.log2 q in
  if (if 0 <=? l then q * 2 ^ l <=? p else q <=? p * 2 ^ (- l))
  then l else l - 1.

(** [m * 2 ^ u] as a number, for [0 < m]. *)
Definition dyadic (m u : Z) : number :=
  if 0 <=? u then Num (m * 2 ^ u)
  else
    let g := Z.gcd m (2 ^ (- u)) in
    if g =? 2 ^ (- u) then Num (m / g)
    else Frac (m / g) (Z.to_pos (Z.log2 (2 ^ (- u) / g))).

(** The double nearest to [p / q], for [0 < p] and [0 < q]: 53
    significant bits, ties to even, gradual underflow, overflow to
    infinity. *)
Definition nearest_double (p q : Z) : number :=
  let u := Z.max (floor_log2_ratio p q - 52) (- 1074) in
  let m := if 0 <=? u then round_half_even p (q * 2 ^ u)
           else round_half_even (p * 2 ^ (- u)) q in
  if m =? 0 then Num 0
  else if 1024 <=? Z.log2 m + u then Infinity false
  else dyadic m u.

Definition negate (n : number) : number :=
  match n with
  | NaN => NaN
  | Num z => Num (- z)
  | Frac m e => Frac (- m) e
  | Infinity s => Infinity (negb s)
  end.

(** The double that the decimal [d * 10 ^ k] reads as, for [0 <= d]. *)
Definition decimal_value (d k : Z) : number :=
  if d =? 0 then Num 0
  else
    let p := if 0 <=? k then d * 10 ^ k else d in
    let q := if 0 <=? k then 1 else 10 ^ (- k) in
    if (p mod q =? 0) && representable (p / q) then Num (p / q)
    else nearest_double p q.

(** *** Numeric text *)

Definition is_white (c : ascii) : bool :=
  match nat_of_ascii c with
  | 9%nat | 10%nat | 11%nat | 12%nat | 13%nat | 32%nat => true
  | _ => false
  end.

Fixpoint trim_start (s : string) : string :=
  match s with
  | EmptyString => EmptyString
  | String c r => if is_white c then trim_start r else s
  end.

Fixpoint trim_end (s : string) : string :=
  match s with
  | EmptyString => EmptyString
  | String c r =>
      match trim_end r with
      | EmptyString => if is_white c then EmptyString else String c EmptyString
      | r' => String c r'
      end
  end.

(** White space is trimmed from both ends (the ASCII white space; the
    further Unicode space characters that JavaScript also trims are not
    told apart from other bytes). *)
Definition trim (s : string) : string := trim_end (trim_start s).

(** [break P s]: the text before the first character that satisfies
    [P], and the text after it when there is one. *)
Fixpoint break (P : ascii -> bool) (s : string) : string * option string :=
  match s with
  | EmptyString => (EmptyString, None)
  | String c r =>
      if P c then (EmptyString, Some r)
      else let (a, b) := break P r in (String c a, b)
  end.

(** A run of decimal digits, possibly empty, as a number. *)
Definition digits (s : string) : option Z :=
  option_map Z.of_uint (NilEmpty.uint_of_string s).

(** An exponent: an optional sign and at least one digit. *)
Definition exponent (s : string) : option Z :=
  match s with
  | EmptyString => None
  | String c r =>
      if (c =? "-")%char then
        match r with
        | EmptyString => None
        | _ => option_map Z.opp (digits r)
        end
      else if (c =? "+")%char then
        match r with
        | EmptyString => None
        | _ => digits r
        end
      else digits s
  end.

(** An unsigned decimal literal, [digits [. digits] [e exponent]] with at
    least one digit before the exponent, as [(d, k)] for the value
    [d * 10 ^ k]. *)
Definition decimal_literal (s : string) : option (Z * Z) :=
  let (mantissa, ex) := break (fun c => (c =? "e")%char || (c =? "E")%char) s in
  let (whole, fraction) := break (fun c => (c =? ".")%char) mantissa in
  let part := match fraction with Some f => f | None => EmptyString end in
  match (whole ++ part)%string with
  | EmptyString => None
  | run =>
      match digits run, ex with
      | Some d, None => Some (d, - Z.of_nat (String.length part))
      | Some d, Some x =>
          option_map (fun e => (d, e - Z.of_nat (String.length part)))
                     (exponent x)
      | None, _ => None
      end
  end.

Definition digit_of (radix : Z) (c : ascii) : option Z :=
  let n := Z.of_nat (nat_of_ascii c) in
  let v := if (48 <=? n) && (n <=? 57) then Some (n - 48)
           else if (97 <=? n) && (n <=? 102) then Some (n - 87)
           else if (65 <=? n) && (n <=? 70) then Some (n - 55)
           else None in
  match v with
  | Some d => if d <? radix then Some d else None
  | None => None
  end.

Fixpoint radix_digits (radix : Z) (s : string) (acc : Z) : option Z :=
  match s with
  | EmptyString => Some acc
  | String c r =>
      match digit_of radix c with
      | Some d => radix_digits radix r (acc * radix + d)
      | None => None
      end
  end.

(** [0x...], [0o...] and [0b...] literals. *)
Definition radix_literal (s : string) : option Z :=
  match s with
  | String "0" (String c (String d r)) =>
      let body := String d r in
      if (c =? "x")%char || (c =? "X")%char then radix_digits 16 body 0
      else if (c =? "o")%char || (c =? "O")%char then radix_digits 8 body 0
      else if (c =? "b")%char || (c =? "B")%char then radix_digits 2 body 0
      else None
  | _ => None
  end.

(** A leading sign, and the rest. *)
Definition sign_and_body (s : string) : bool * string :=
  match s with
  | String c r =>
      if (c =? "-")%char then (true, r)
      else if (c =? "+")%char then (false, r)
      else (false, s)
  | EmptyString => (false, s)
  end.

(** [Number(s)] on a string: white space is trimmed, the empty string is
    [0], text that is no numeric literal is [NaN]. *)
Definition StringToNumber (s : string) : number :=
  match trim s with
  | EmptyString => Num 0
  | t =>
      match radix_literal t with
      | Some n => decimal_value n 0
      | None =>
          let (neg, body) := sign_and_body t in
          if (body =? "Infinity")%string then Infinity neg
          else match decimal_literal body with
               | Some (d, k) =>
                   if neg then negate (decimal_value d k) else decimal_value d k
               | None => NaN
               end
      end
  end.

Definition Number := StringToNumber.

(** *** Loose equality *)

Fixpoint zeros (n : nat) : string :=
  match n with
  | O => EmptyString
  | S n' => String "0" (zeros n')
  end.

(** Decimal text of a number.  For a fraction this is its full decimal
    expansion; JavaScript prints the shortest decimal that reads back as
    the same number, and the full expansion reads back the same. *)
Definition number_text (n : number) : string :=
  match n with
  | NaN => "NaN"
  | Num z => show z
  | Infinity false => "Infinity"
  | Infinity true => "-Infinity"
  | Frac m e =>
      let a := Z.abs m in
      let whole := a / 2 ^ Zpos e in
      let part := show ((a mod 2 ^ Zpos e) * 5 ^ Zpos e) in
      ((if (m <? 0)%Z then "-" else "") ++ show whole ++ "."
       ++ zeros (Pos.to_nat e - String.length part)%nat ++ part)%string
  end.

(** [ToString], as used by [ToPrimitive] on arrays and objects. *)
Fixpoint ToString (v : jsval) : string :=
  match v with
  | JUndefined => "undefined"
  | JNull => "null"
  | JBool true => "true"
  | JBool false => "false"
  | JNum n => number_text n
  | JStr s => s
  | JArr l =>
      String.concat ","
        (map (fun e => match e with
                       | JUndefined | JNull => ""
                       | _ => ToString e
                       end) l)
  | JObj _ => "[object Object]"
  end.

(** [ToPrimitive] throws a TypeError on an object whose own [toString]
    is not callable, as every [toString] property of a parsed JSON body
    is; an array passes the error of its elements on. *)
Fixpoint throws_TypeError (v : jsval) : bool :=
  match v with
  | JArr l => existsb throws_TypeError l
  | JObj fields => existsb (fun kv => (fst kv =? "toString")%string) fields
  | _ => false
  end.

(** [v == 1]: the loose comparison in the status message of
    PUT /tasks/:id, for a [v] on which it does not throw. *)
Definition loose_eq_1 (v : jsval) : bool :=
  match v with
  | JUndefined | JNull => false
  | JBool b => b
  | JNum (Num z) => (z =? 1)%Z
  | JNum _ => false
  | JStr s => match StringToNumber s with Num 1 => true | _ => false end
  | JArr _ | JObj _ =>
      match StringToNumber (ToString v) with Num 1 => true | _ => false end
  end.

(** [s.split(sep)] for a one-character separator. *)
Fixpoint split (sep : ascii) (s : string) : list string :=
  match s with
  | EmptyString => [EmptyString]
  | String c r =>
      if (c =? sep)%char then EmptyString :: split sep r
      else match split sep r with
           | [] => [String c EmptyString]
           | w :: ws => String c w :: ws
           end
  end.

(** ** The store: schema (lines 17-38) *)

(** A value of a relationship column: NULL, INTEGER or TEXT.  Both
    columns have INTEGER affinity, so a bound text that spells a number
    is stored as that number; TEXT stands for text that spells none. *)
Inductive sqlval :=
| SNull
| SInt (z : Z)
| SText (s : string).

(** A row of [tasks].  [title] and [description] hold the JavaScript
    values bound to the INSERT, an unbound [undefined] being NULL; the
    text that the TEXT columns keep for a value that is no string is not
    modelled.  [done] is the stored flag, [0] or [1]. *)
Record task := {
  id : Z;
  title : jsval;
  description : jsval;
  done : Z;
  position : Z
}.

(** A row of [task_relationships]. *)
Record relationship := {
  parent_id : sqlval;
  child_id : sqlval
}.

(** The database behind the connection [db].  [sqlite_sequence] is the
    AUTOINCREMENT counter of [tasks].  [foreign_keys] is the connection's
    [PRAGMA foreign_keys]: SQLite checks FOREIGN KEY clauses and runs their
    ON DELETE actions only while it is on. *)
Record database := {
  tasks : list task;
  task_relationships : list relationship;
  sqlite_sequence : Z;
  foreign_keys : bool
}.

(** The connection of line 9.  SQLite opens every connection with
    [foreign_keys] off, and the program issues no PRAGMA. *)
Definition open_db : database :=
  {| tasks := []; task_relationships := []; sqlite_sequence := 0;
     foreign_keys := false |}.

(** A row of the SELECT of GET /tasks: [t.*] and the two GROUP_CONCAT
    columns, each NULL ([None]) or text. *)
Record row := {
  row_task : task;
  row_child_tasks : option string;
  row_parent_tasks : option string
}.

(** What a statement's callback sees: [err], [this.lastID],
    [this.changes] and, for [db.all], the rows. *)
Record result := {
  err : option string;
  lastID : Z;
  changes : Z;
  rows : list row
}.

Definition failure (msg : string) : result :=
  {| err := Some msg; lastID := 0; changes := 0; rows := [] |}.

Definition success (last n : Z) : result :=
  {| err := None; lastID := last; changes := n; rows := [] |}.

Definition set_tasks (l : list task) (db : database) : database :=
  {| tasks := l; task_relationships := task_relationships db;
     sqlite_sequence := sqlite_sequence db; foreign_keys := foreign_keys db |}.

Definition set_relationships (l : list relationship) (db : database) : database :=
  {| tasks := tasks db; task_relationships := l;
     sqlite_sequence := sqlite_sequence db; foreign_keys := foreign_keys db |}.

(** ** The store: statements *)

(** [MAX(position)] over the table: NULL when there is no row. *)
Definition max_position (l : list task) : option Z :=
  fold_right (fun t m => match m with
                         | None => Some (position t)
                         | Some p => Some (Z.max (position t) p)
                         end) None l.

(** AUTOINCREMENT: one more than the largest id the table ever held. *)
Definition next_id (db : database) : Z :=
  fold_right (fun t m => Z.max (id t) m) (sqlite_sequence db) (tasks db) + 1.

(** Line 81:
    [INSERT INTO tasks (title, description, position)
     SELECT ?, ?, COALESCE(MAX(position) + 1, 0) FROM tasks].
    The aggregate SELECT yields exactly one row, also on an empty table. *)
Definition insert_task (ttl dsc : jsval) (db : database) : database * result :=
  match ttl with
  | JUndefined | JNull =>
      (db, failure "SQLITE_CONSTRAINT: NOT NULL constraint failed: tasks.title")
  | _ =>
      let new := next_id db in
      let pos := match max_position (tasks db) with
                 | Some m => m + 1
                 | None => 0
                 end in
      ({| tasks := tasks db ++ [{| id := new; title := ttl;
                                   description := match dsc with
                                                  | JUndefined => JNull
                                                  | _ => dsc
                                                  end;
                                   done := 0; position := pos |}];
          task_relationships := task_relationships db;
          sqlite_sequence := new;
          foreign_keys := foreign_keys db |},
       success new 1)
  end.

(** SQL equality of two values: NULL equals nothing, not even NULL. *)
Definition sqlval_eqb (a b : sqlval) : bool :=
  match a, b with
  | SInt x, SInt y => (x =? y)%Z
  | SText s, SText t => (s =? t)%string
  | _, _ => false
  end.

(** Two rows that the PRIMARY KEY (parent_id, child_id) cannot hold
    together.  SQLite lets NULL into the key columns of this table, and
    a row that holds a NULL conflicts with no row. *)
Definition same_pair (a b : relationship) : bool :=
  sqlval_eqb (parent_id a) (parent_id b)
  && sqlval_eqb (child_id a) (child_id b).

Definition has_task (k : Z) (db : database) : bool :=
  existsb (fun t => (id t =? k)%Z) (tasks db).

(** [REFERENCES tasks (id)]: a NULL refers to nothing and is let through;
    any other value must be the id of a task. *)
Definition references_task (v : sqlval) (db : database) : bool :=
  match v with
  | SNull => true
  | SInt k => has_task k db
  | SText _ => false
  end.

(** The most [?] placeholders one statement may have (the default of
    SQLite since 3.32). *)
Definition SQLITE_MAX_VARIABLE_NUMBER : Z := 32766.

(** The rows of a multi-row VALUES clause go in one after the other; the
    PRIMARY KEY (parent_id, child_id) rejects a pair that is already in
    the table, which stops the statement ([None]). *)
Fixpoint insert_rows (values table : list relationship)
  : option (list relationship) :=
  match values with
  | [] => Some table
  | r :: rest =>
      if existsb (same_pair r) table then None
      else insert_rows rest (table ++ [r])
  end.

(** Line 111: [INSERT INTO task_relationships (parent_id, child_id)
    VALUES (?, ?),...], with two placeholders for each row.  A statement
    with too many placeholders is refused before it runs.  A statement
    that fails leaves the table as it was.  The FOREIGN KEY clauses are
    checked when the statement ends, and only with [foreign_keys] on. *)
Definition insert_relationships (values : list relationship) (db : database)
  : database * result :=
  if (SQLITE_MAX_VARIABLE_NUMBER <? 2 * Z.of_nat (List.length values))%Z
  then (db, failure "SQLITE_ERROR: too many SQL variables")
  else
    match insert_rows values (task_relationships db) with
    | None =>
        (db, failure "SQLITE_CONSTRAINT: UNIQUE constraint failed: task_relationships.parent_id, task_relationships.child_id")
    | Some table =>
        if foreign_keys db
           && negb (forallb (fun r => references_task (parent_id r) db
                                      && references_task (child_id r) db)
                            values)
        then (db, failure "SQLITE_CONSTRAINT: FOREIGN KEY constraint failed")
        else (set_relationships table db,
              success 0 (Z.of_nat (List.length values)))
    end.

Definition count_id (k : Z) (l : list task) : Z :=
  Z.of_nat (List.length (filter (fun t => (id t =? k)%Z) l)).

(** Line 140: [UPDATE tasks SET position = ? WHERE id = ?]. *)
Definition update_position (index taskId : Z) (db : database)
  : database * result :=
  (set_tasks
     (map (fun t => if (id t =? taskId)%Z
                    then {| id := id t; title := title t;
                            description := description t; done := done t;
                            position := index |}
                    else t) (tasks db)) db,
   success 0 (count_id taskId (tasks db))).

(** A route parameter reaches SQLite as TEXT.  Compared with the INTEGER
    column [id] it is first read as a number when it spells one: white
    space around it is dropped; the text of an integer that fits 64 bits
    is that integer; any other decimal literal is a REAL, the nearest
    double, which equals an id only when it is integral.  Text that
    spells no number equals no id. *)
Definition text_to_integer (s : string) : option Z :=
  let (neg, body) := sign_and_body (trim s) in
  match decimal_literal body with
  | None => None
  | Some (d, k) =>
      let z := if neg then - d else d in
      if (k =? 0) && (- 2 ^ 63 <=? z) && (z <? 2 ^ 63)
         && negb (existsb (fun c => (c =? ".")%char || (c =? "e")%char
                                    || (c =? "E")%char)
                          (list_ascii_of_string body))
      then Some z
      else match decimal_value d k with
           | Num v => Some (if neg then - v else v)
           | _ => None
           end
  end.

(** Line 162: [UPDATE tasks SET done = ? WHERE id = ?]. *)
Definition update_done (flag : Z) (param : string) (db : database)
  : database * result :=
  match text_to_integer param with
  | None => (db, success 0 0)
  | Some k =>
      (set_tasks
         (map (fun t => if (id t =? k)%Z
                        then {| id := id t; title := title t;
                                description := description t; done := flag;
                                position := position t |}
                        else t) (tasks db)) db,
       success 0 (count_id k (tasks db)))
  end.

(** Line 181: [DELETE FROM tasks WHERE id = ?].  The ON DELETE CASCADE
    actions of the schema remove the relationships of a deleted task, when
    the connection enforces foreign keys. *)
Definition delete_task (param : string) (db : database) : database * result :=
  match text_to_integer param with
  | None => (db, success 0 0)
  | Some k =>
      let n := count_id k (tasks db) in
      let rest := filter (fun t => negb (id t =? k)%Z) (tasks db) in
      let rels :=
        if foreign_keys db && (0 <? n)%Z
        then filter (fun r => negb (sqlval_eqb (parent_id r) (SInt k))
                              && negb (sqlval_eqb (child_id r) (SInt k)))
                    (task_relationships db)
        else task_relationships db in
      ({| tasks := rest; task_relationships := rels;
          sqlite_sequence := sqlite_sequence db;
          foreign_keys := foreign_keys db |},
       success 0 n)
  end.

(** Lines 41-50, the SELECT of GET /tasks. *)

Definition left_join {A B : Type} (on : A -> B -> bool)
  (l : list A) (r : list B) : list (A * option B) :=
  flat_map (fun a => match filter (on a) r with
                     | [] => [(a, None)]
                     | m => map (fun b => (a, Some b)) m
                     end) l.

Definition is_null (v : sqlval) : bool :=
  match v with
  | SNull => true
  | _ => false
  end.

Definition sqlval_eq_dec (a b : sqlval) : {a = b} + {a <> b}.
Proof.
  decide equality; [apply Z.eq_dec | apply string_dec].
Defined.

(** The order of SQLite values: integers by value, before text; text
    byte by byte. *)
Definition sqlval_leb (a b : sqlval) : bool :=
  match a, b with
  | SNull, _ => true
  | _, SNull => false
  | SInt x, SInt y => (x <=? y)%Z
  | SInt _, SText _ => true
  | SText _, SInt _ => false
  | SText s, SText t => String.leb s t
  end.

Fixpoint insert_ascending (v : sqlval) (l : list sqlval) : list sqlval :=
  match l with
  | [] => [v]
  | x :: xs => if sqlval_leb v x then v :: l else x :: insert_ascending v xs
  end.

Definition ascending (l : list sqlval) : list sqlval :=
  fold_right insert_ascending [] l.

(** The text of a value inside GROUP_CONCAT. *)
Definition value_text (v : sqlval) : string :=
  match v with
  | SNull => EmptyString
  | SInt z => show z
  | SText s => s
  end.

(** The values that [GROUP_CONCAT(DISTINCT e)] joins: the non-NULL values
    of the group, each once, in ascending order. *)
Definition distinct_values (l : list sqlval) : list sqlval :=
  ascending (nodup sqlval_eq_dec (filter (fun v => negb (is_null v)) l)).

(** [GROUP_CONCAT(DISTINCT e)]: the texts of those values joined by
    commas; NULL when there is none. *)
Definition group_concat_distinct (l : list sqlval) : option string :=
  match distinct_values l with
  | [] => None
  | v => Some (String.concat "," (map value_text v))
  end.

Definition joined : Type := task * option relationship * option relationship.

Definition from_joins (db : database) : list joined :=
  left_join (fun (tp : task * option relationship) cr =>
               sqlval_eqb (SInt (id (fst tp))) (child_id cr))
    (left_join (fun t pr => sqlval_eqb (SInt (id t)) (parent_id pr))
       (tasks db) (task_relationships db))
    (task_relationships db).

(** [GROUP BY t.id]: [id] is the primary key of [tasks], so there is one
    group for each task, made of the joined rows that carry its id. *)
Definition group_by_id (db : database) : list row :=
  map (fun t =>
         let g := filter (fun j : joined => (id (fst (fst j)) =? id t)%Z)
                         (from_joins db) in
         {| row_task := t;
            row_child_tasks :=
              group_concat_distinct
                (map (fun j : joined => match snd (fst j) with
                                        | Some pr => child_id pr
                                        | None => SNull
                                        end) g);
            row_parent_tasks :=
              group_concat_distinct
                (map (fun j : joined => match snd j with
                                        | Some cr => parent_id cr
                                        | None => SNull
                                        end) g) |})
      (tasks db).

(** [ORDER BY t.position]. *)
Fixpoint insert_by_position (r : row) (l : list row) : list row :=
  match l with
  | [] => [r]
  | x :: xs =>
      if (position (row_task r) <=? position (row_task x))%Z then r :: l
      else x :: insert_by_position r xs
  end.

Definition order_by_position (l : list row) : list row :=
  fold_right insert_by_position [] l.

Definition select_tasks (db : database) : database * result :=
  (db, {| err := None; lastID := 0; changes := 0;
          rows := order_by_position (group_by_id db) |}).

(** Values are bound to the [(?, ?)] placeholders two at a time. *)
Fixpoint bind_pairs (values : list sqlval) : list relationship :=
  match values with
  | p :: c :: rest => {| parent_id := p; child_id := c |} :: bind_pairs rest
  | _ => []
  end.

Inductive statement :=
| SELECT_tasks
| INSERT_task (ttl dsc : jsval)
| INSERT_relationships (relationshipValues : list sqlval)
| UPDATE_position (index taskId : Z)
| UPDATE_done (flag : Z) (param : string)
| DELETE_task (param : string).

Definition exec (q : statement) (db : database) : database * result :=
  match q with
  | SELECT_tasks => select_tasks db
  | INSERT_task ttl dsc => insert_task ttl dsc db
  | INSERT_relationships values => insert_relationships (bind_pairs values) db
  | UPDATE_position index taskId => update_position index taskId db
  | UPDATE_done flag param => update_done flag param db
  | DELETE_task param => delete_task param db
  end.

(** A statement can also fail for reasons outside the program (the file
    is locked, the disk is full); it then reports the error and changes
    nothing. *)
Definition run (fault : option string) (q : statement) (db : database)
  : database * result :=
  match fault with
  | Some e => (db, failure e)
  | None => exec q db
  end.

(** ** The API layer *)

(** A task object of the GET /tasks response (lines 58-66). *)
Record task_json := {
  task_row : task;
  child_tasks : list number;
  parent_tasks : list number
}.

Inductive payload :=
| json_error (msg : string)
| json_message (msg : string)
| json_created (taskId : Z) (ttl dsc : jsval)
| json_tasks (l : list task_json).

Record response := {
  status : Z;
  json : payload
}.

(** The callbacks handed to [db.all] and [db.run], each with the
    variables it closes over. *)
Inductive callback :=
| get_tasks_cb
| insert_task_cb (ttl dsc : jsval) (parentTasks childTasks : list sqlval)
| insert_relationships_cb (taskId : Z) (ttl dsc : jsval)
| update_position_cb
| update_done_cb (param : string) (dn : jsval)
| delete_task_cb.

(** One request in flight: the response once sent, the [errorOccurred]
    flag of the reorder handler, and the statements handed to the
    connection that have not run yet. *)
Record exchange := {
  res : option response;
  errorOccurred : bool;
  pending : list (statement * callback)
}.

Definition idle : exchange :=
  {| res := None; errorOccurred := false; pending := [] |}.

Definition send (code : Z) (p : payload) (x : exchange) : exchange :=
  {| res := match res x with
            | None => Some {| status := code; json := p |}
            | sent => sent
            end;
     errorOccurred := errorOccurred x;
     pending := pending x |}.

Definition db_run (q : statement) (cb : callback) (x : exchange) : exchange :=
  {| res := res x; errorOccurred := errorOccurred x;
     pending := pending x ++ [(q, cb)] |}.

Definition db_all := db_run.

Definition set_errorOccurred (x : exchange) : exchange :=
  {| res := res x; errorOccurred := true; pending := pending x |}.

(** Lines 60-65. *)
Definition id_array (column : option string) : list number :=
  match column with
  | Some s => if ToBoolean (JStr s) then map Number (split "," s) else []
  | None => []
  end.

Definition to_json (r : row) : task_json :=
  {| task_row := row_task r;
     child_tasks := id_array (row_child_tasks r);
     parent_tasks := id_array (row_parent_tasks r) |}.

(** Lines 90-99. *)
Definition relationships_of (taskId : Z) (parentTasks childTasks : list sqlval)
  : list relationship :=
  map (fun parentId => {| parent_id := parentId; child_id := SInt taskId |})
      parentTasks
  ++ map (fun childId => {| parent_id := SInt taskId; child_id := childId |})
         childTasks.

Definition status_message (param : string) (dn : jsval) : string :=
  ("Status task " ++ param ++ " berhasil diubah: "
   ++ (if loose_eq_1 dn then "Selesai" else "Belum Selesai"))%string.

(** What each callback does with the result of its statement.  In the
    callback of PUT /tasks/:id the comparison [done == 1] can throw; the
    callback then ends without a response. *)
Definition on_result (cb : callback) (r : result) (x : exchange) : exchange :=
  match cb with
  | get_tasks_cb =>
      match err r with
      | Some e => send 500 (json_error e) x
      | None => send 200 (json_tasks (map to_json (rows r))) x
      end
  | insert_task_cb ttl dsc parentTasks childTasks =>
      match err r with
      | Some e => send 500 (json_error e) x
      | None =>
          let taskId := lastID r in
          let relationships := relationships_of taskId parentTasks childTasks in
          if (0 <? List.length relationships)%nat
          then db_run (INSERT_relationships
                         (flat_map (fun r => [parent_id r; child_id r])
                                   relationships))
                      (insert_relationships_cb taskId ttl dsc) x
          else send 200 (json_created taskId ttl dsc) x
      end
  | insert_relationships_cb taskId ttl dsc =>
      match err r with
      | Some e => send 500 (json_error e) x
      | None => send 200 (json_created taskId ttl dsc) x
      end
  | update_position_cb =>
      match err r with
      | Some _ => set_errorOccurred x
      | None => x
      end
  | update_done_cb param dn =>
      match err r with
      | Some e => send 500 (json_error e) x
      | None =>
          if (changes r =? 0)%Z then send 404 (json_error "Task not found") x
          else if throws_TypeError dn then x
          else send 200 (json_message (status_message param dn)) x
      end
  | delete_task_cb =>
      match err r with
      | Some e => send 500 (json_error e) x
      | None =>
          if (changes r =? 0)%Z then send 404 (json_error "Task not found") x
          else send 200 (json_message "Task deleted successfully") x
      end
  end.

(** The requests, as the router hands them to the five handlers.  An
    absent [parentTasks] or [childTasks] is [None]; their elements are
    given as the values the relationship columns take for them: NULL for
    [null], INTEGER for an integer or for text that spells one, TEXT for
    other text.  [tasks] is [None] when the body's field is not an
    array; its elements are given as the integers that [WHERE id = ?]
    compares with [id], an element that is no integer matching no row,
    as an integer that is no id does.  An absent [title], [description]
    or [done] is [JUndefined].  [param] is the text of the route
    parameter [:id]. *)
Inductive request :=
| GET_tasks
| POST_tasks (ttl dsc : jsval) (parentTasks childTasks : option (list sqlval))
| PUT_tasks_reorder (tasks : option (list Z))
| PUT_tasks_id (param : string) (dn : jsval)
| DELETE_tasks_id (param : string).

(** [tasks.forEach((taskId, index) => db.run(...))], lines 138-148. *)
Fixpoint forEach_update (l : list Z) (index : Z) (x : exchange) : exchange :=
  match l with
  | [] => x
  | taskId :: rest =>
      forEach_update rest (index + 1)
        (db_run (UPDATE_position index taskId) update_position_cb x)
  end.

Definition default_list (o : option (list sqlval)) : list sqlval :=
  match o with
  | Some l => l
  | None => []
  end.

(** The synchronous part of each handler: everything it does before it
    returns to the event loop. *)
Definition handler (req : request) : exchange :=
  match req with
  | GET_tasks => db_all SELECT_tasks get_tasks_cb idle
  | POST_tasks ttl dsc parentTasks childTasks =>
      if negb (ToBoolean ttl)
      then send 400 (json_error "Title is required") idle
      else db_run (INSERT_task ttl dsc)
             (insert_task_cb ttl dsc (default_list parentTasks)
                (default_list childTasks)) idle
  | PUT_tasks_reorder None =>
      send 400 (json_error "Tasks must be an array") idle
  | PUT_tasks_reorder (Some l) =>
      let x := forEach_update l 0 idle in
      if errorOccurred x then send 500 (json_error "Error, try again") x
      else send 200 (json_message "Tasks reordered successfully") x
  | PUT_tasks_id param dn =>
      db_run (UPDATE_done (if ToBoolean dn then 1 else 0) param)
             (update_done_cb param dn) idle
  | DELETE_tasks_id param =>
      db_run (DELETE_task param) delete_task_cb idle
  end.

(** ** The event loop *)

(** The state of the server while it works on a request: the database,
    the exchange, and the number of statements run so far.  [io n] is the
    outside failure, if any, that meets the [n]-th statement.

    A handler runs to its end before any callback does: [db.run] only
    hands a statement to the connection.  The connection is modelled as
    taking the statements in the order they were handed over; each
    statement is atomic, and its callback runs right after it. *)
Record world := {
  store : database;
  exch : exchange;
  clock : nat
}.

Definition step (io : nat -> option string) (w : world) : option world :=
  match pending (exch w) with
  | [] => None
  | (q, cb) :: rest =>
      let (db', r) := run (io (clock w)) q (store w) in
      Some {| store := db';
              exch := on_result cb r
                        {| res := res (exch w);
                           errorOccurred := errorOccurred (exch w);
                           pending := rest |};
              clock := S (clock w) |}
  end.

Fixpoint event_loop (fuel : nat) (io : nat -> option string) (w : world)
  : world :=
  match fuel with
  | O => w
  | S fuel' =>
      match step io w with
      | None => w
      | Some w' => event_loop fuel' io w'
      end
  end.

(** A queued INSERT of a task may queue one more statement from its
    callback; no other callback queues anything. *)
Definition cost (job : statement * callback) : nat :=
  match snd job with
  | insert_task_cb _ _ _ _ => 2
  | _ => 1
  end.

Definition budget (x : exchange) : nat :=
  fold_right (fun job n => (cost job + n)%nat) O (pending x).

(** A request served from start to finish. *)
Definition serve (req : request) (io : nat -> option string) (db : database)
  : world :=
  let x := handler req in
  event_loop (budget x) io {| store := db; exch := x; clock := 0 |}.

Definition no_fault : nat -> option string := fun _ => None.

(** The task row that line 81 adds. *)
Definition new_task (ttl dsc : jsval) (db : database) : task :=
  {| id := next_id db; title := ttl;
     description := match dsc with JUndefined => JNull | _ => dsc end;
     done := 0;
     position := match max_position (tasks db) with
                 | Some m => m + 1
                 | None => 0
                 end |}.

Definition with_new_task (ttl dsc : jsval) (db : database) : database :=
  {| tasks := tasks db ++ [new_task ttl dsc db];
     task_relationships := task_relationships db;
     sqlite_sequence := next_id db;
     foreign_keys := foreign_keys db |}.

Definition sent (code : Z) (p : payload) : exchange := send code p idle.

(** ** The reorder queue, spelled out *)

(** The statements that [forEach_update] hands to the connection. *)
Fixpoint update_jobs (l : list Z) (index : Z) : list (statement * callback) :=
  match l with
  | [] => []
  | taskId :: rest =>
      (UPDATE_position index taskId, update_position_cb)
      :: update_jobs rest (index + 1)
  end.

(** The store after those statements have run, the first one as the
    [n]-th statement of the request. *)
Fixpoint apply_updates (io : nat -> option string) (l : list Z) (index : Z)
  (n : nat) (db : database) : database :=
  match l with
  | [] => db
  | taskId :: rest =>
      apply_updates io rest (index + 1) (S n)
        (fst (run (io n) (UPDATE_position index taskId) db))
  end.

(** Whether one of the statements [n], ..., [n + len - 1] fails. *)
Fixpoint faulted (io : nat -> option string) (n len : nat) : bool :=
  match len with
  | O => false
  | S len' => match io n with
              | Some _ => true
              | None => faulted io (S n) len'
              end
  end.

Definition reordered : payload := json_message "Tasks reordered successfully".

(** The states the store can be in: the endpoints are the only way to
    change it. *)
Inductive reachable : database -> Prop :=
| reachable_open : reachable open_db
| reachable_serve req io db :
    reachable db -> reachable (store (serve req io db)).

(** The reading of "each listed id ends with the position of its index"
    on the store a reorder request leaves behind. *)
Definition positions_follow_indices (l : list Z) (db : database) : Prop :=
  forall i t r,
    nth_error l i = Some t -> In r (tasks db) -> id r = t ->
    position r = Z.of_nat i.

(** The (parent_id, child_id) pairs of the relationship table. *)
Definition pairs (db : database) : list (sqlval * sqlval) :=
  map (fun r => (parent_id r, child_id r)) (task_relationships db).

Definition holds_null (r : relationship) : bool :=
  is_null (parent_id r) || is_null (child_id r).

(** The rows that hold no NULL, and their pairs. *)
Definition keyed (l : list relationship) : list relationship :=
  filter (fun r => negb (holds_null r)) l.

Definition keyed_pairs (db : database) : list (sqlval * sqlval) :=
  map (fun r => (parent_id r, child_id r)) (keyed (task_relationships db)).

(** A value that is NULL or an integer that a double holds exactly, as
    every integer up to [2 ^ 53] in magnitude is. *)
Definition plain_id (v : sqlval) : Prop :=
  match v with
  | SNull => True
  | SInt z => representable z = true
  | SText _ => False
  end.

(** A store all of whose relationship ids are such values. *)
Definition integer_ids (db : database) : Prop :=
  forall r, In r (task_relationships db) ->
            plain_id (parent_id r) /\ plain_id (child_id r).


Definition by_position (a b : row) : Prop :=
  position (row_task a) <= position (row_task b).

(** ** Characters of decimal text *)

Fixpoint all_chars (P : ascii -> bool) (s : string) : bool :=
  match s with
  | EmptyString => true
  | String c r => P c && all_chars P r
  end.

Definition sign_or_digit (c : ascii) : bool :=
  match c with
  | "-" | "0" | "1" | "2" | "3" | "4" | "5" | "6" | "7" | "8" | "9" => true
  | _ => false
  end%char.

(** ** Sample stores, built through the endpoints *)

Definition after (reqs : list request) : database :=
  fold_left (fun db req => store (serve req no_fault db)) reqs open_db.

(** One task. *)
Definition db_one : database :=
  after [POST_tasks (JStr "a") JUndefined None None].

(** Task 2 is a child of task 1. *)
Definition db_two : database :=
  after [POST_tasks (JStr "a") JUndefined None None;
         POST_tasks (JStr "b") JUndefined (Some [SInt 1]) None].

(** Three tasks at positions 0, 1, 2. *)
Definition db_three : database :=
  after [POST_tasks (JStr "a") JUndefined None None;
         POST_tasks (JStr "b") JUndefined None None;
         POST_tasks (JStr "c") JNull (Some [SInt 1; SInt 2]) (Some [SInt 1])].

(** A task created with [parentTasks: [null, null]]. *)
Definition db_nulls : database :=
  after [POST_tasks (JStr "a") JUndefined (Some [SNull; SNull]) None].

(** Task 3 is created with [parentTasks: ["1,2"]]. *)
Definition db_text : database :=
  after [POST_tasks (JStr "a") JUndefined None None;
         POST_tasks (JStr "b") JUndefined None None;
         POST_tasks (JStr "c") JUndefined (Some [SText "1,2"]) None].

(** ** Vocabulary of the further properties *)

(** A route parameter names no task when it spells no integer, or an
    integer that is no stored id. *)
Definition names_no_task (param : string) (db : database) : Prop :=
  forall k, text_to_integer param = Some k -> ~ In k (map id (tasks db)).

Definition not_found : exchange := sent 404 (json_error "Task not found").

(** The handlers that report a failed first statement. *)
Definition reports_failure (req : request) : Prop :=
  match req with
  | GET_tasks | PUT_tasks_id _ _ | DELETE_tasks_id _ => True
  | POST_tasks ttl _ _ _ => ToBoolean ttl = true
  | PUT_tasks_reorder _ => False
  end.


(** The discipline of the primary key of [tasks]: ids are pairwise
    distinct, positive, and none exceeds the AUTOINCREMENT counter. *)
Definition ids_well_formed (db : database) : Prop :=
  NoDup (map id (tasks db))
  /\ 0 <= sqlite_sequence db
  /\ Forall (fun t => 1 <= id t <= sqlite_sequence db) (tasks db).

(** [later db db']: [db'] is [db] after any number of requests. *)
Inductive later (db : database) : database -> Prop :=
| later_now : later db db
| later_serve req io db' :
    later db db' -> later db (store (serve req io db')).

(** What a reorder request must leave alone in a task row. *)
Definition but_position (t : task) : Z * jsval * jsval * Z :=
  (id t, title t, description t, done t).

(** What PUT /tasks/:id must leave alone in a task row. *)
Definition but_done (t : task) : Z * jsval * jsval * Z :=
  (id t, title t, description t, position t).

(** The shape of a stored task row: a truthy title, a done flag that is
    0 or 1, a position that is not negative. *)
Definition row_valid (t : task) : Prop :=
  ToBoolean (title t) = true /\ (done t = 0 \/ done t = 1) /\ 0 <= position t.

Definition rows_valid (db : database) : Prop := Forall row_valid (tasks db).

(** The statements the handlers can hand to the connection: an INSERT of
    a task carries a truthy title, an UPDATE of done a flag 0 or 1, an
    UPDATE of position a non-negative index. *)
Definition statement_valid (q : statement) : Prop :=
  match q with
  | INSERT_task ttl _ => ToBoolean ttl = true
  | UPDATE_done flag _ => flag = 0 \/ flag = 1
  | UPDATE_position index _ => 0 <= index
  | _ => True
  end.

(** * Properties *)

(** ** Coercions on small inputs *)

Example split_3 : split "," "3,1,20" = ["3"; "1"; "20"].
Proof. reflexivity. Qed.

Example Number_show : Number (show (-120)) = Num (-120).
Proof. reflexivity. Qed.

Example falsy_values :
  map ToBoolean [JUndefined; JNull; JBool false; JNum (Num 0); JNum NaN; JStr ""]
  = [false; false; false; false; false; false].
Proof. reflexivity. Qed.

Example truthy_values :
  map ToBoolean [JBool true; JNum (Num 2); JStr "0"; JStr "false"; JArr [];
                 JObj []]
  = [true; true; true; true; true; true].
Proof. reflexivity. Qed.

Example Number_examples :
  map Number ["12"; "1.5"; "-0.25"; "1e3"; "abc"; ""; "9007199254740993";
              "1e400"]
  = [Num 12; Frac 3 1; Frac (-1) 2; Num 1000; NaN; Num 0;
     Num 9007199254740992; Infinity false].
Proof. vm_compute. reflexivity. Qed.

Example text_to_integer_examples :
  map text_to_integer ["1"; "1.0"; "1e0"; "1."; " 1 "; "1.5"; "abc"; "0x1"]
  = [Some 1; Some 1; Some 1; Some 1; Some 1; None; None; None].
Proof. vm_compute. reflexivity. Qed.

Example throws_examples :
  map throws_TypeError [JObj [("toString", JNum (Num 0))];
                        JArr [JObj [("toString", JNull)]];
                        JObj [("valueOf", JNull)]; JArr []; JStr "toString"]
  = [true; true; false; false; false].
Proof. reflexivity. Qed.

Example loose_examples :
  map loose_eq_1 [JBool true; JNum (Num 1); JStr " 1 "; JStr "1.0";
                  JStr "0x1"; JArr [JNum (Num 1)];
                  JNum (Num 2); JNum (Frac 1 1); JStr "yes"; JArr []; JObj []]
  = [true; true; true; true; true; true; false; false; false; false; false].
Proof. reflexivity. Qed.

(** ** POST /tasks *)

Lemma insert_task_truthy ttl dsc db :
  ToBoolean ttl = true ->
  insert_task ttl dsc db = (with_new_task ttl dsc db, success (next_id db) 1).
Proof.
  destruct ttl; simpl; intros H; try discriminate; reflexivity.
Qed.

Lemma bind_pairs_flat (l : list relationship) :
  bind_pairs (flat_map (fun r => [parent_id r; child_id r]) l) = l.
Proof.
  induction l as [|[p c] l IH]; simpl; [reflexivity | now rewrite IH].
Qed.

(** The whole course of a POST /tasks that passes the title check. *)
Lemma serve_post ttl dsc ps cs io db :
  ToBoolean ttl = true ->
  serve (POST_tasks ttl dsc ps cs) io db =
  match io 0%nat with
  | Some e => {| store := db; exch := sent 500 (json_error e); clock := 1 |}
  | None =>
      let db1 := with_new_task ttl dsc db in
      let taskId := next_id db in
      match relationships_of taskId (default_list ps) (default_list cs) with
      | [] => {| store := db1; exch := sent 200 (json_created taskId ttl dsc);
                 clock := 1 |}
      | rels =>
          match io 1%nat with
          | Some e => {| store := db1; exch := sent 500 (json_error e);
                         clock := 2 |}
          | None =>
              let (db2, r) := insert_relationships rels db1 in
              {| store := db2;
                 exch := match err r with
                         | Some e => sent 500 (json_error e)
                         | None => sent 200 (json_created taskId ttl dsc)
                         end;
                 clock := 2 |}
          end
      end
  end.
Proof.
  intros Ht. unfold serve, handler. rewrite Ht. simpl.
  unfold step. simpl. destruct (io 0%nat) as [e|]; [reflexivity |].
  simpl. rewrite (insert_task_truthy _ _ _ Ht). simpl.
  destruct (relationships_of (next_id db) (default_list ps) (default_list cs))
    as [|r0 rels] eqn:Hrels; [reflexivity |].
  destruct r0 as [p c]. simpl. destruct (io 1%nat) as [e|]; [reflexivity |].
  simpl. rewrite bind_pairs_flat.
  destruct (insert_relationships _ (with_new_task ttl dsc db)) as [db2 r].
  destruct (err r); reflexivity.
Qed.



Lemma max_position_spec (l : list task) :
  l <> [] ->
  exists m, max_position l = Some m
            /\ In m (map position l)
            /\ forall u, In u l -> position u <= m.
Proof.
  induction l as [|t l IH]; [congruence | intros _].
  destruct l as [|t' l].
  - exists (position t). simpl. repeat split; auto.
    intros u [<- | []]. lia.
  - destruct IH as (m & Hm & Hin & Hle); [discriminate |].
    change (max_position (t :: t' :: l))
      with (match max_position (t' :: l) with
            | None => Some (position t)
            | Some p => Some (Z.max (position t) p)
            end).
    rewrite Hm. exists (Z.max (position t) m). split; [reflexivity |]. split.
    + destruct (Z.max_spec (position t) m) as [[_ ->] | [_ ->]].
      * right. exact Hin.
      * left. reflexivity.
    + intros u [<- | Hu]; [lia |]. specialize (Hle u Hu). lia.
Qed.

Lemma insert_rows_app (values table table' : list relationship) :
  insert_rows values table = Some table' -> table' = table ++ values.
Proof.
  revert table. induction values as [|r values IH]; simpl; intros table H.
  - injection H as <-. now rewrite app_nil_r.
  - destruct (existsb (same_pair r) table); [discriminate |].
    apply IH in H. now rewrite <- app_assoc in H.
Qed.

(** An INSERT of relationships either fails and changes nothing, or
    appends its rows to the table; it never touches [tasks]. *)
Lemma insert_relationships_cases (values : list relationship) (db : database) :
  (exists e, insert_relationships values db = (db, failure e))
  \/ insert_relationships values db
     = (set_relationships (task_relationships db ++ values) db,
        success 0 (Z.of_nat (List.length values))).
Proof.
  unfold insert_relationships.
  destruct (SQLITE_MAX_VARIABLE_NUMBER <? _); [left; eauto |].
  destruct (insert_rows values (task_relationships db)) as [table|] eqn:Hrows.
  - apply insert_rows_app in Hrows. subst table.
    destruct (foreign_keys db && _); [left | right]; eauto.
  - left; eauto.
Qed.

(** A POST /tasks without a title stops at the check of line 75. *)
Lemma serve_post_refused ttl dsc ps cs io db :
  ToBoolean ttl = false ->
  serve (POST_tasks ttl dsc ps cs) io db
  = {| store := db; exch := sent 400 (json_error "Title is required");
       clock := 0 |}.
Proof.
  intros Hfalsy. unfold serve, handler. now rewrite Hfalsy.
Qed.

Section Create.

Variables (ttl dsc : jsval) (parentTasks childTasks : option (list sqlval)).
Variable io : nat -> option string.
Variable db : database.

Let w := serve (POST_tasks ttl dsc parentTasks childTasks) io db.

(** C6.  A POST /tasks whose [title] is absent, empty or otherwise falsy
    is answered 400 "Title is required"; no statement reaches the store,
    which is left exactly as it was. *)
Theorem post_without_title :
  ToBoolean ttl = false ->
  res (exch w) = Some {| status := 400; json := json_error "Title is required" |}
  /\ store w = db
  /\ clock w = O.
Proof.
  intros Hfalsy. subst w. unfold serve, handler.
  rewrite Hfalsy. simpl. auto.
Qed.

(** C3.  A POST /tasks answered 200 has added one task row; its position
    is 0 when the table was empty, and otherwise one more than the largest
    position among the rows that were there. *)
Theorem post_position (p : payload) :
  res (exch w) = Some {| status := 200; json := p |} ->
  exists t,
    tasks (store w) = tasks db ++ [t]
    /\ p = json_created (id t) ttl dsc
    /\ (tasks db = [] -> position t = 0)
    /\ (tasks db <> [] ->
        exists m, In m (map position (tasks db))
                  /\ (forall u, In u (tasks db) -> position u <= m)
                  /\ position t = m + 1).
Proof.
  intros Hres.
  destruct (ToBoolean ttl) eqn:Ht.
  2:{ unfold w in Hres. rewrite (serve_post_refused _ _ _ _ _ _ Ht) in Hres.
      discriminate. }
  unfold w in *.
  rewrite (serve_post _ _ _ _ _ _ Ht) in Hres |- *.
  assert (Hpos : (tasks db = [] -> position (new_task ttl dsc db) = 0)
                 /\ (tasks db <> [] ->
                     exists m, In m (map position (tasks db))
                               /\ (forall u, In u (tasks db) -> position u <= m)
                               /\ position (new_task ttl dsc db) = m + 1)).
  { split.
    - intros He. unfold new_task. simpl. now rewrite He.
    - intros Hne. destruct (max_position_spec _ Hne) as (m & Hm & Hin & Hle).
      exists m. unfold new_task. simpl. rewrite Hm. auto. }
  destruct (io 0%nat) as [e|]; [discriminate |].
  cbv zeta in Hres |- *.
  destruct (relationships_of _ _ _) as [|r0 rels].
  - simpl in Hres. injection Hres as <-.
    exists (new_task ttl dsc db). simpl. tauto.
  - destruct (io 1%nat) as [e|]; [discriminate |].
    destruct (insert_relationships_cases (r0 :: rels) (with_new_task ttl dsc db))
      as [[e He] | Hok]; [rewrite He in * | rewrite Hok in *];
      simpl in Hres; [discriminate |].
    injection Hres as <-.
    exists (new_task ttl dsc db). simpl. tauto.
Qed.

(** C4.  A POST /tasks answered 200 has added exactly the rows
    (p, newId) for the ids p of [parentTasks] and (newId, c) for the ids c
    of [childTasks], where newId is the id of the new task.  When both
    lists are empty or absent, the INSERT of the task is the only
    statement issued, and the request succeeds as soon as that one
    does. *)
Theorem post_relationships :
  (forall p, res (exch w) = Some {| status := 200; json := p |} ->
     exists t,
       tasks (store w) = tasks db ++ [t]
       /\ p = json_created (id t) ttl dsc
       /\ task_relationships (store w)
          = task_relationships db
            ++ map (fun parentId => {| parent_id := parentId;
                                       child_id := SInt (id t) |})
                   (default_list parentTasks)
            ++ map (fun childId => {| parent_id := SInt (id t);
                                      child_id := childId |})
                   (default_list childTasks))
  /\ (default_list parentTasks = [] -> default_list childTasks = [] ->
      ToBoolean ttl = true -> io 0%nat = None ->
      (exists taskId,
          res (exch w) = Some {| status := 200;
                                 json := json_created taskId ttl dsc |})
      /\ clock w = 1%nat
      /\ task_relationships (store w) = task_relationships db).
Proof.
  split.
  - intros p Hres.
    destruct (ToBoolean ttl) eqn:Ht.
    2:{ unfold w in Hres. rewrite (serve_post_refused _ _ _ _ _ _ Ht) in Hres.
        discriminate. }
    unfold w in *.
    rewrite (serve_post _ _ _ _ _ _ Ht) in Hres |- *.
    destruct (io 0%nat) as [e|]; [discriminate |].
    cbv zeta in Hres |- *.
    fold (relationships_of (next_id db) (default_list parentTasks)
            (default_list childTasks)).
    change (next_id db) with (id (new_task ttl dsc db)).
    destruct (relationships_of _ _ _) as [|r0 rels] eqn:Hrels.
    + simpl in Hres. injection Hres as <-. unfold relationships_of in Hrels.
      exists (new_task ttl dsc db). simpl.
      destruct (default_list parentTasks); [| discriminate].
      destruct (default_list childTasks); [| discriminate].
      simpl. rewrite app_nil_r. auto.
    + destruct (io 1%nat) as [e|]; [discriminate |].
      destruct (insert_relationships_cases (r0 :: rels)
                  (with_new_task ttl dsc db))
        as [[e He] | Hok]; [rewrite He in * | rewrite Hok in *];
        simpl in Hres; [discriminate |].
      injection Hres as <-.
      exists (new_task ttl dsc db). simpl. rewrite <- Hrels. auto.
  - intros Hp Hc Ht Hio. unfold w.
    rewrite (serve_post _ _ _ _ _ _ Ht), Hio. unfold relationships_of.
    rewrite Hp, Hc. simpl. eauto.
Qed.

End Create.

Lemma post_without_title_witness :
  ToBoolean (JStr "") = false
  /\ res (exch (serve (POST_tasks (JStr "") (JStr "d") (Some [SInt 1]) None)
                      no_fault open_db))
     = Some {| status := 400; json := json_error "Title is required" |}.
Proof.
  split; [reflexivity |].
  apply (post_without_title (JStr "") (JStr "d") (Some [SInt 1]) None
           no_fault open_db).
  reflexivity.
Defined.

Lemma post_position_witness :
  exists t,
    tasks (store (serve (POST_tasks (JStr "d") JUndefined (Some [SInt 1]) None)
                        no_fault db_three))
    = tasks db_three ++ [t]
    /\ position t = 3.
Proof.
  destruct (post_position (JStr "d") JUndefined (Some [SInt 1]) None no_fault
              db_three (json_created 4 (JStr "d") JUndefined) eq_refl)
    as (t & Htasks & _ & _ & Hmax).
  exists t. split; [exact Htasks |].
  destruct Hmax as (m & Hin & Hle & ->); [discriminate |].
  assert (position {| id := 3; title := JStr "c"; description := JNull;
                      done := 0; position := 2 |} <= m)
    by (apply Hle; simpl; auto).
  simpl in Hin, H. lia.
Defined.

Lemma post_relationships_witness :
  exists t,
    tasks (store (serve (POST_tasks (JStr "d") JUndefined (Some [SInt 1; SInt 2]) (Some [SInt 3]))
                        no_fault db_three))
    = tasks db_three ++ [t]
    /\ task_relationships
         (store (serve (POST_tasks (JStr "d") JUndefined (Some [SInt 1; SInt 2]) (Some [SInt 3]))
                       no_fault db_three))
       = task_relationships db_three
         ++ [{| parent_id := SInt 1; child_id := SInt (id t) |};
             {| parent_id := SInt 2; child_id := SInt (id t) |};
             {| parent_id := SInt (id t); child_id := SInt 3 |}].
Proof.
  destruct (post_relationships (JStr "d") JUndefined (Some [SInt 1; SInt 2]) (Some [SInt 3])
              no_fault db_three) as [Hrows _].
  destruct (Hrows (json_created 4 (JStr "d") JUndefined) eq_refl)
    as (t & Htasks & _ & Hrels).
  exists t. split; [exact Htasks | exact Hrels].
Defined.

(** ** PUT /tasks/:id *)

(** Handlers that issue one statement: open the loop for one turn and
    split on the outside failure. *)
Ltac one_statement io :=
  unfold serve, handler; simpl; unfold step; simpl;
  destruct (io 0%nat) as [?e|]; [reflexivity |]; simpl.

Lemma serve_put param dn io db :
  serve (PUT_tasks_id param dn) io db =
  match io 0%nat with
  | Some e => {| store := db; exch := sent 500 (json_error e); clock := 1 |}
  | None =>
      let (db', r) := update_done (if ToBoolean dn then 1 else 0) param db in
      {| store := db';
         exch := if changes r =? 0
                 then sent 404 (json_error "Task not found")
                 else if throws_TypeError dn then idle
                 else sent 200 (json_message (status_message param dn));
         clock := 1 |}
  end.
Proof.
  one_statement io.
  destruct (update_done _ param db) as [db' r] eqn:Hupd.
  assert (Herr : err r = None).
  { unfold update_done in Hupd.
    destruct (text_to_integer param); injection Hupd as _ <-; reflexivity. }
  simpl. rewrite Herr. destruct (changes r =? 0); [reflexivity |].
  destruct (throws_TypeError dn); reflexivity.
Qed.

Lemma count_id_positive (k : Z) (l : list task) :
  In k (map id l) -> 0 < count_id k l.
Proof.
  unfold count_id. induction l as [|t l IH]; simpl; [tauto |].
  intros [<- | Hin].
  - rewrite Z.eqb_refl. simpl. lia.
  - destruct (id t =? k); simpl; [lia | auto].
Qed.

(** C10.  PUT /tasks/:id never answers 400, whatever the body holds.  On
    a task that exists, and with the statement carried out, the rows of
    that id end with [done = 0] when the body's [done] is falsy (absent
    included) and with [done = 1] when it is truthy; the answer is then
    200, unless [done == 1] throws on the value. *)
Theorem put_done_coercion (param : string) (dn : jsval)
  (io : nat -> option string) (db : database) :
  let w := serve (PUT_tasks_id param dn) io db in
  (forall r, res (exch w) = Some r -> status r <> 400)
  /\ ToBoolean JUndefined = false
  /\ (forall k, text_to_integer param = Some k ->
                In k (map id (tasks db)) ->
                io 0%nat = None ->
        map id (tasks (store w)) = map id (tasks db)
        /\ (forall t, In t (tasks (store w)) -> id t = k ->
              (ToBoolean dn = false -> done t = 0)
              /\ (ToBoolean dn = true -> done t = 1))
        /\ (throws_TypeError dn = false ->
            exists msg, res (exch w) = Some {| status := 200;
                                               json := json_message msg |})).
Proof.
  cbv zeta. rewrite serve_put. split; [| split; [reflexivity |]].
  - intros r. destruct (io 0%nat) as [e|].
    + simpl. intros [= <-]. discriminate.
    + destruct (update_done _ param db) as [db' r'].
      destruct (changes r' =? 0); simpl; [intros [= <-]; discriminate |].
      destruct (throws_TypeError dn); simpl; [discriminate |].
      intros [= <-]. discriminate.
  - intros k Hk Hin Hio. rewrite Hio. unfold update_done. rewrite Hk.
    pose proof (count_id_positive _ _ Hin) as Hpos.
    simpl. destruct (count_id k (tasks db) =? 0) eqn:Hz; [lia |].
    simpl. split; [| split].
    + rewrite map_map. apply map_ext. intros t.
      destruct (id t =? k); reflexivity.
    + intros t Ht Hid. apply in_map_iff in Ht as (u & <- & _).
      destruct (id u =? k) eqn:Hu; simpl in *; [| lia].
      destruct (ToBoolean dn); split; congruence.
    + intros ->. simpl. eauto.
Qed.

Lemma put_done_coercion_witness :
  text_to_integer "1" = Some 1
  /\ In 1 (map id (tasks db_one))
  /\ Forall (fun t => id t = 1 -> done t = 1)
        (tasks (store (serve (PUT_tasks_id "1" (JStr "yes")) no_fault db_one))).
Proof.
  split; [reflexivity |]. split; [simpl; auto |].
  destruct (put_done_coercion "1" (JStr "yes") no_fault db_one)
    as (_ & _ & H).
  destruct (H 1 eq_refl (or_introl eq_refl) eq_refl) as (_ & Hdone & _).
  apply Forall_forall. intros t Ht Hid.
  apply (Hdone t Ht Hid). reflexivity.
Defined.

(** C5.  The message of PUT /tasks/:id takes its label from [done == 1],
    the stored flag from [done ? 1 : 0].  With [done = 2] in the body,
    task 1 is stored as done while the 200 message says "Belum
    Selesai". *)
Theorem put_done_label_mismatch :
  let w := serve (PUT_tasks_id "1" (JNum (Num 2))) no_fault db_one in
  res (exch w)
  = Some {| status := 200;
            json := json_message "Status task 1 berhasil diubah: Belum Selesai" |}
  /\ map done (tasks (store w)) = [1]
  /\ ToBoolean (JNum (Num 2)) = true
  /\ loose_eq_1 (JNum (Num 2)) = false.
Proof.
  vm_compute. repeat split.
Qed.

(** Where the two coercions agree, the label does match the flag. *)
Lemma put_done_label_agrees param dn io db r :
  loose_eq_1 dn = ToBoolean dn ->
  res (exch (serve (PUT_tasks_id param dn) io db)) = Some r ->
  status r = 200 ->
  json r = json_message
             ("Status task " ++ param ++ " berhasil diubah: "
              ++ (if ToBoolean dn then "Selesai" else "Belum Selesai"))%string.
Proof.
  intros Hagree. rewrite serve_put. destruct (io 0%nat) as [e|].
  - simpl. intros [= <-]. discriminate.
  - destruct (update_done _ param db) as [db' r'].
    destruct (changes r' =? 0); simpl; [intros [= <-]; discriminate |].
    destruct (throws_TypeError dn); simpl; [discriminate |].
    intros [= <-] _. simpl. unfold status_message. now rewrite Hagree.
Qed.

(** When [done == 1] throws, the flag is stored and no response is
    sent. *)
Example put_done_throws :
  let w := serve (PUT_tasks_id "1" (JObj [("toString", JNum (Num 0))]))
             no_fault db_one in
  res (exch w) = None /\ map done (tasks (store w)) = [1].
Proof.
  vm_compute. split; reflexivity.
Qed.

(** ** What every statement preserves *)

Lemma event_loop_store (P : database -> Prop) (io : nat -> option string) :
  (forall fault q db, P db -> P (fst (run fault q db))) ->
  forall fuel w, P (store w) -> P (store (event_loop fuel io w)).
Proof.
  intros Hrun. induction fuel as [|fuel IH]; intros w Hw; simpl; [exact Hw |].
  unfold step. destruct (pending (exch w)) as [|[q cb] rest]; [exact Hw |].
  specialize (Hrun (io (clock w)) q (store w) Hw).
  destruct (run (io (clock w)) q (store w)) as [db' r].
  apply IH. exact Hrun.
Qed.

Lemma serve_store (P : database -> Prop) :
  (forall fault q db, P db -> P (fst (run fault q db))) ->
  forall req io db, P db -> P (store (serve req io db)).
Proof.
  intros Hrun req io db Hdb. unfold serve.
  apply event_loop_store; assumption.
Qed.

Lemma run_foreign_keys fault q db :
  foreign_keys (fst (run fault q db)) = foreign_keys db.
Proof.
  destruct fault as [e|]; [reflexivity |]. destruct q; simpl.
  - reflexivity.
  - destruct ttl; reflexivity.
  - destruct (insert_relationships_cases (bind_pairs relationshipValues) db)
      as [[e ->] | ->]; reflexivity.
  - reflexivity.
  - unfold update_done. destruct (text_to_integer param); reflexivity.
  - unfold delete_task. destruct (text_to_integer param); reflexivity.
Qed.

(** No handler issues a PRAGMA: the connection never enforces foreign
    keys. *)
Lemma reachable_foreign_keys_off db : reachable db -> foreign_keys db = false.
Proof.
  induction 1 as [|req io db _ IH]; [reflexivity |].
  apply (serve_store (fun d => foreign_keys d = false)); [| exact IH].
  intros fault q d Hd. now rewrite run_foreign_keys.
Qed.

(** ** DELETE /tasks/:id *)

Lemma serve_delete param io db :
  serve (DELETE_tasks_id param) io db =
  match io 0%nat with
  | Some e => {| store := db; exch := sent 500 (json_error e); clock := 1 |}
  | None =>
      let (db', r) := delete_task param db in
      {| store := db';
         exch := if changes r =? 0
                 then sent 404 (json_error "Task not found")
                 else sent 200 (json_message "Task deleted successfully");
         clock := 1 |}
  end.
Proof.
  one_statement io.
  destruct (delete_task param db) as [db' r] eqn:Hdel.
  assert (Herr : err r = None).
  { unfold delete_task in Hdel.
    destruct (text_to_integer param); injection Hdel as _ <-; reflexivity. }
  simpl. rewrite Herr. destruct (changes r =? 0); reflexivity.
Qed.

(** On a connection that enforces foreign keys, a DELETE answered 200
    removes every relationship of the deleted task. *)
Lemma delete_cascades_when_enforced param io db k p :
  foreign_keys db = true ->
  text_to_integer param = Some k ->
  res (exch (serve (DELETE_tasks_id param) io db))
  = Some {| status := 200; json := p |} ->
  forall r, In r (task_relationships (store (serve (DELETE_tasks_id param) io db))) ->
            parent_id r <> SInt k /\ child_id r <> SInt k.
Proof.
  intros Hfk Hk. rewrite serve_delete.
  destruct (io 0%nat) as [e|]; [discriminate |].
  unfold delete_task. rewrite Hk, Hfk. simpl.
  destruct (count_id k (tasks db) =? 0) eqn:Hz; [discriminate |].
  intros _ r. simpl.
  assert ((0 <? count_id k (tasks db)) = true) as ->.
  { apply Z.ltb_lt. unfold count_id in *. lia. }
  intros Hr. apply filter_In in Hr as [_ Hr].
  apply andb_true_iff in Hr as [H1 H2].
  apply negb_true_iff in H1, H2.
  split; intros Heq; rewrite Heq in *; simpl in *;
    rewrite Z.eqb_refl in *; discriminate.
Qed.

(** On the connection the program opens, DELETE leaves the relationship
    table as it is. *)
Lemma delete_keeps_relationships param io db :
  reachable db ->
  task_relationships (store (serve (DELETE_tasks_id param) io db))
  = task_relationships db.
Proof.
  intros Hreach. apply reachable_foreign_keys_off in Hreach.
  rewrite serve_delete. destruct (io 0%nat) as [e|]; [reflexivity |].
  unfold delete_task. destruct (text_to_integer param); [| reflexivity].
  rewrite Hreach. reflexivity.
Qed.

(** C1.  Task 2 was created as a child of task 1.  DELETE /tasks/1 is
    answered 200, and yet the row (1, 2) stays in [task_relationships]:
    the next GET /tasks still lists 1 among the parents of task 2. *)
Theorem delete_leaves_relationships :
  let w := serve (DELETE_tasks_id "1") no_fault db_two in
  res (exch w)
  = Some {| status := 200; json := json_message "Task deleted successfully" |}
  /\ map id (tasks (store w)) = [2]
  /\ task_relationships (store w)
     = [{| parent_id := SInt 1; child_id := SInt 2 |}]
  /\ res (exch (serve GET_tasks no_fault (store w)))
     = Some {| status := 200;
               json := json_tasks
                         [{| task_row := {| id := 2; title := JStr "b";
                                            description := JNull;
                                            done := 0; position := 1 |};
                             child_tasks := [];
                             parent_tasks := [Num 1] |}] |}.
Proof.
  vm_compute. repeat split.
Qed.

(** ** PUT /tasks/reorder *)

Lemma forEach_update_spec (l : list Z) (index : Z) (x : exchange) :
  forEach_update l index x
  = {| res := res x; errorOccurred := errorOccurred x;
       pending := pending x ++ update_jobs l index |}.
Proof.
  revert index x. induction l as [|t l IH]; intros index x; simpl.
  - rewrite app_nil_r. now destruct x.
  - rewrite IH. simpl. now rewrite <- app_assoc.
Qed.

Lemma budget_update_jobs (l : list Z) (index : Z) r b :
  budget {| res := r; errorOccurred := b; pending := update_jobs l index |}
  = List.length l.
Proof.
  unfold budget. simpl. revert index.
  induction l as [|t l IH]; intros index; simpl; [reflexivity |].
  now rewrite IH.
Qed.

(** The loop over a queue of position updates: each runs in turn, a
    failure only raises the flag, and the response slot is never
    touched. *)
Lemma event_loop_updates io (l : list Z) :
  forall index n db r b fuel,
    (List.length l <= fuel)%nat ->
    event_loop fuel io
      {| store := db;
         exch := {| res := r; errorOccurred := b;
                    pending := update_jobs l index |};
         clock := n |}
    = {| store := apply_updates io l index n db;
         exch := {| res := r;
                    errorOccurred := b || faulted io n (List.length l);
                    pending := [] |};
         clock := n + List.length l |}.
Proof.
  induction l as [|t l IH]; intros index n db r b fuel Hfuel.
  - simpl. rewrite orb_false_r, Nat.add_0_r. destruct fuel; reflexivity.
  - destruct fuel as [|fuel]; [simpl in Hfuel; lia |].
    simpl in Hfuel. simpl. unfold step. simpl.
    destruct (io n) as [e|]; simpl; unfold set_errorOccurred; simpl.
    + rewrite IH by lia. rewrite orb_true_r. f_equal. lia.
    + rewrite IH by lia. f_equal. lia.
Qed.

(** The whole course of a reorder request with an array body: the
    response is sent before the first update runs. *)
Lemma serve_reorder (l : list Z) io db :
  serve (PUT_tasks_reorder (Some l)) io db
  = {| store := apply_updates io l 0 O db;
       exch := {| res := Some {| status := 200; json := reordered |};
                  errorOccurred := faulted io O (List.length l);
                  pending := [] |};
       clock := List.length l |}.
Proof.
  unfold serve, handler. cbv zeta. rewrite forEach_update_spec. simpl.
  unfold send. simpl. rewrite budget_update_jobs.
  now rewrite event_loop_updates.
Qed.

(** Whatever happens to the updates, the answer is 200. *)
Lemma reorder_always_200 (l : list Z) io db :
  res (exch (serve (PUT_tasks_reorder (Some l)) io db))
  = Some {| status := 200; json := reordered |}.
Proof.
  now rewrite serve_reorder.
Qed.

(** C2.  Reorder [3, 1, 2] on three tasks, where the second update (task
    1) meets a locked database.  The callback raises [errorOccurred], but
    the handler has tested the flag before any callback ran: the response
    is 200 "Tasks reordered successfully", not 500.  The updates of
    tasks 3 and 2 stay applied. *)
Theorem reorder_failure_answers_200 :
  let io := fun n => if Nat.eqb n 1 then Some "SQLITE_BUSY: database is locked"
                      else None in
  let w := serve (PUT_tasks_reorder (Some [3; 1; 2])) io db_three in
  res (exch w)
  = Some {| status := 200; json := json_message "Tasks reordered successfully" |}
  /\ errorOccurred (exch w) = true
  /\ map (fun t => (id t, position t)) (tasks db_three)
     = [(1, 0); (2, 1); (3, 2)]
  /\ map (fun t => (id t, position t)) (tasks (store w))
     = [(1, 0); (2, 2); (3, 0)].
Proof.
  vm_compute. repeat split.
Qed.

(** ** The primary key of [task_relationships] *)

Lemma sqlval_eqb_eq a b :
  sqlval_eqb a b = true <-> a = b /\ is_null a = false.
Proof.
  destruct a as [|x|s], b as [|y|t]; simpl.
  1-4, 6, 8: split; [discriminate | intros [Heq Hnull]; discriminate].
  - rewrite Z.eqb_eq. split; [intros -> | intros [[= ->] _]]; auto.
  - split; [discriminate | intros [[=] _]].
  - rewrite String.eqb_eq. split; [intros -> | intros [[= ->] _]]; auto.
Qed.

(** A row without NULL conflicts with its own copies and with nothing
    else; a row with a NULL conflicts with nothing. *)
Lemma same_pair_iff r x :
  same_pair r x = true <-> x = r /\ holds_null r = false.
Proof.
  destruct r as [p c], x as [p' c']. unfold same_pair, holds_null. simpl.
  rewrite andb_true_iff, !sqlval_eqb_eq, orb_false_iff. split.
  - intros [[-> Hp] [-> Hc]]. auto.
  - intros [[= -> ->] [Hp Hc]]. auto.
Qed.

Lemma keyed_app l l' : keyed (l ++ l') = keyed l ++ keyed l'.
Proof.
  apply filter_app.
Qed.

Lemma keyed_filter (f : relationship -> bool) l :
  keyed (filter f l) = filter f (keyed l).
Proof.
  unfold keyed. induction l as [|r l IH]; simpl; [reflexivity |].
  destruct (f r) eqn:Hf, (holds_null r) eqn:Hn; simpl;
    rewrite ?Hf, ?Hn; simpl; now rewrite IH.
Qed.

Lemma insert_rows_NoDup (values table table' : list relationship) :
  insert_rows values table = Some table' ->
  NoDup (keyed table) -> NoDup (keyed table').
Proof.
  revert table. induction values as [|r values IH]; simpl; intros table H Hnd.
  - now injection H as <-.
  - destruct (existsb (same_pair r) table) eqn:Hex; [discriminate |].
    apply (IH _ H). rewrite keyed_app. unfold keyed at 2. simpl.
    destruct (holds_null r) eqn:Hnull; simpl; [now rewrite app_nil_r |].
    apply (Permutation_NoDup (Permutation_cons_append _ r)).
    constructor; [| exact Hnd].
    intros Hin. apply filter_In in Hin as [Hin _].
    apply Bool.not_true_iff_false in Hex. apply Hex.
    apply existsb_exists. exists r. split; [exact Hin |].
    now apply same_pair_iff.
Qed.

Lemma run_NoDup fault q db :
  NoDup (keyed (task_relationships db)) ->
  NoDup (keyed (task_relationships (fst (run fault q db)))).
Proof.
  intros Hnd. destruct fault as [e|]; [exact Hnd |]. destruct q; simpl.
  - exact Hnd.
  - destruct ttl; exact Hnd.
  - unfold insert_relationships.
    destruct (SQLITE_MAX_VARIABLE_NUMBER <? _); [exact Hnd |].
    destruct (insert_rows _ (task_relationships db)) as [table|] eqn:Hrows;
      [| exact Hnd].
    destruct (foreign_keys db && _); [exact Hnd |].
    simpl. eapply insert_rows_NoDup; eauto.
  - exact Hnd.
  - unfold update_done. destruct (text_to_integer param); exact Hnd.
  - unfold delete_task. destruct (text_to_integer param); [| exact Hnd].
    simpl. destruct (foreign_keys db && _); [| exact Hnd].
    rewrite keyed_filter. now apply NoDup_filter.
Qed.

Lemma keyed_pairs_NoDup db :
  NoDup (keyed (task_relationships db)) <-> NoDup (keyed_pairs db).
Proof.
  unfold keyed_pairs. split; [| apply NoDup_map_inv].
  induction 1 as [|r l Hnotin _ IH]; simpl; constructor; [| exact IH].
  intros Hin. apply in_map_iff in Hin as ([p c] & Heq & Hin).
  destruct r as [p' c']. simpl in Heq. injection Heq as -> ->. contradiction.
Qed.

(** C9 as stated fails: POST /tasks with [parentTasks: [null, null]] on
    the empty store is answered 200 and leaves the pair (NULL, 1) twice
    in the relationship table. *)
Lemma null_pairs_counterexample :
  reachable db_nulls
  /\ res (exch (serve (POST_tasks (JStr "a") JUndefined (Some [SNull; SNull])
                         None) no_fault open_db))
     = Some {| status := 200; json := json_created 1 (JStr "a") JUndefined |}
  /\ pairs db_nulls = [(SNull, SInt 1); (SNull, SInt 1)]
  /\ ~ NoDup (pairs db_nulls).
Proof.
  split; [| split; [reflexivity | split; [reflexivity |]]].
  - unfold db_nulls, after. cbn [fold_left].
    apply reachable_serve, reachable_open.
  - intros Hnd. vm_compute in Hnd.
    apply NoDup_cons_iff in Hnd as [Hnotin _]. apply Hnotin. now left.
Qed.

(** C9, amended.  No (parent_id, child_id) pair without NULL occurs twice
    in the relationship table: this holds in every state the endpoints
    can reach, and every request (create, reorder, set done, delete,
    list), whatever its outcome, keeps it. *)
Theorem pairs_unique :
  (forall db, reachable db -> NoDup (keyed_pairs db))
  /\ (forall req io db,
        NoDup (keyed_pairs db) ->
        NoDup (keyed_pairs (store (serve req io db)))).
Proof.
  assert (Hstep : forall req io db,
             NoDup (keyed (task_relationships db)) ->
             NoDup (keyed (task_relationships (store (serve req io db))))).
  { intros req io db.
    apply (serve_store (fun d => NoDup (keyed (task_relationships d)))).
    intros fault q d. apply run_NoDup. }
  split.
  - intros db Hreach. apply keyed_pairs_NoDup.
    induction Hreach as [|req io db _ IH]; [constructor | now apply Hstep].
  - intros req io db Hnd. apply keyed_pairs_NoDup, Hstep.
    now apply keyed_pairs_NoDup.
Qed.

Lemma db_three_reachable : reachable db_three.
Proof.
  unfold db_three, after. cbn [fold_left].
  do 3 apply reachable_serve. apply reachable_open.
Qed.

Lemma pairs_unique_witness :
  NoDup (keyed_pairs
           (store (serve (POST_tasks (JStr "d") JNull (Some [SInt 1; SInt 1])
                            (Some [SInt 2]))
                         no_fault db_three))).
Proof.
  apply (proj1 pairs_unique). constructor. apply db_three_reachable.
Defined.

(** A duplicated pair in one request is refused by the primary key: the
    INSERT fails as a whole and the request is answered 500. *)
Example post_duplicate_pair :
  let w := serve (POST_tasks (JStr "d") JNull (Some [SInt 1; SInt 1])
                    (Some [SInt 2]))
             no_fault db_three in
  task_relationships (store w) = task_relationships db_three
  /\ option_map status (res (exch w)) = Some 500.
Proof.
  vm_compute. split; reflexivity.
Qed.

(** ** GET /tasks: the order of the rows *)

Lemma serve_get io db :
  serve GET_tasks io db =
  match io 0%nat with
  | Some e => {| store := db; exch := sent 500 (json_error e); clock := 1 |}
  | None =>
      {| store := db;
         exch := sent 200 (json_tasks
                             (map to_json (order_by_position (group_by_id db))));
         clock := 1 |}
  end.
Proof.
  one_statement io. reflexivity.
Qed.

Lemma insert_by_position_perm r l :
  Permutation (insert_by_position r l) (r :: l).
Proof.
  induction l as [|x l IH]; simpl; [reflexivity |].
  destruct (position (row_task r) <=? position (row_task x)); [reflexivity |].
  rewrite IH. apply perm_swap.
Qed.

Lemma order_by_position_perm l : Permutation (order_by_position l) l.
Proof.
  induction l as [|r l IH]; simpl; [constructor |].
  rewrite insert_by_position_perm. now constructor.
Qed.

Lemma insert_by_position_sorted r l :
  StronglySorted by_position l ->
  StronglySorted by_position (insert_by_position r l).
Proof.
  induction 1 as [|x l Hsorted IH Hall]; simpl.
  - repeat constructor.
  - destruct (position (row_task r) <=? position (row_task x)) eqn:Hle.
    + apply Z.leb_le in Hle. constructor; [now constructor |].
      constructor; [exact Hle |].
      eapply Forall_impl; [| exact Hall]. unfold by_position. intros; lia.
    + apply Z.leb_gt in Hle. constructor; [exact IH |].
      eapply Permutation_Forall.
      * symmetry. apply insert_by_position_perm.
      * constructor; [unfold by_position; lia | exact Hall].
Qed.

Lemma order_by_position_sorted l :
  StronglySorted by_position (order_by_position l).
Proof.
  induction l as [|r l IH]; simpl; [constructor |].
  now apply insert_by_position_sorted.
Qed.

(** In a list sorted on a key, an element with a smaller key stands
    before one with a larger key. *)
Lemma sorted_before {A : Type} (key : A -> Z) (l : list A) :
  StronglySorted (fun x y => key x <= key y) l ->
  forall a b, In a l -> In b l -> key a < key b ->
  exists l1 l2 l3, l = l1 ++ a :: l2 ++ b :: l3.
Proof.
  induction 1 as [|x l Hsorted IH Hall]; intros a b Ha Hb Hlt; [contradiction |].
  destruct Ha as [-> | Ha], Hb as [-> | Hb].
  - lia.
  - apply in_split in Hb as (l2 & l3 & ->). now exists [], l2, l3.
  - rewrite Forall_forall in Hall. specialize (Hall a Ha). simpl in Hall. lia.
  - destruct (IH a b Ha Hb Hlt) as (l1 & l2 & l3 & ->).
    now exists (x :: l1), l2, l3.
Qed.

Lemma sorted_map {A B : Type} (f : A -> B) (R : B -> B -> Prop) (l : list A) :
  StronglySorted (fun x y => R (f x) (f y)) l -> StronglySorted R (map f l).
Proof.
  induction 1 as [|x l _ IH Hall]; simpl; constructor; [exact IH |].
  now apply Forall_map.
Qed.

Lemma group_by_id_tasks db : map row_task (group_by_id db) = tasks db.
Proof.
  unfold group_by_id. rewrite map_map. simpl. apply map_id.
Qed.

(** The task objects of a GET /tasks response are the rows of [tasks],
    each once, in ascending order of position. *)
Lemma get_tasks_rows io db out :
  res (exch (serve GET_tasks io db))
  = Some {| status := 200; json := json_tasks out |} ->
  out = map to_json (order_by_position (group_by_id db))
  /\ Permutation (map task_row out) (tasks db)
  /\ StronglySorted
       (fun a b => position (task_row a) <= position (task_row b)) out.
Proof.
  rewrite serve_get. destruct (io 0%nat) as [e|]; [discriminate |].
  simpl. intros [= <-]. split; [reflexivity |]. split.
  - rewrite map_map. simpl.
    transitivity (map row_task (group_by_id db));
      [| now rewrite group_by_id_tasks].
    apply Permutation_map, order_by_position_perm.
  - apply sorted_map. simpl. apply order_by_position_sorted.
Qed.

(** ** PUT /tasks/reorder: the positions it leaves *)

Lemma update_position_rows index k db r :
  In r (tasks (fst (update_position index k db))) ->
  (id r <> k /\ In r (tasks db)) \/ (id r = k /\ position r = index).
Proof.
  simpl. intros Hin. apply in_map_iff in Hin as (u & <- & Hu).
  destruct (id u =? k) eqn:Hid; simpl.
  - right. split; [lia | reflexivity].
  - left. split; [lia | exact Hu].
Qed.

Lemma run_update_ids fault index k db :
  map id (tasks (fst (run fault (UPDATE_position index k) db)))
  = map id (tasks db).
Proof.
  destruct fault; simpl; [reflexivity |].
  rewrite map_map. apply map_ext. intros t. now destruct (id t =? k).
Qed.

Lemma apply_updates_ids io l :
  forall index n db,
    map id (tasks (apply_updates io l index n db)) = map id (tasks db).
Proof.
  induction l as [|k l IH]; intros index n db; simpl; [reflexivity |].
  now rewrite IH, run_update_ids.
Qed.

(** Updates of other ids leave the rows of an id as they are. *)
Lemma apply_updates_other io l k :
  ~ In k l ->
  forall index n db r,
    In r (tasks (apply_updates io l index n db)) -> id r = k ->
    In r (tasks db).
Proof.
  induction l as [|k' l IH]; intros Hnotin index n db r Hin Hid; simpl in *;
    [exact Hin |].
  apply IH in Hin; [| tauto | exact Hid].
  destruct (io n); [exact Hin |].
  apply update_position_rows in Hin as [[_ Hin] | [Hk _]]; [exact Hin |].
  exfalso. apply Hnotin. left. congruence.
Qed.

Lemma apply_updates_position io l :
  NoDup l ->
  forall index n db i t r,
    nth_error l i = Some t ->
    io (n + i)%nat = None ->
    In r (tasks (apply_updates io l index n db)) -> id r = t ->
    position r = index + Z.of_nat i.
Proof.
  induction 1 as [|k l Hnotin _ IH]; intros index n db i t r Hnth Hio Hin Hid.
  - destruct i; discriminate.
  - destruct i as [|i]; simpl in Hnth, Hin.
    + injection Hnth as ->. rewrite Nat.add_0_r in Hio. rewrite Hio in Hin.
      apply (apply_updates_other io l t Hnotin) in Hin; [| exact Hid].
      apply update_position_rows in Hin as [[Hne _] | [_ ->]]; [contradiction |].
      simpl. lia.
    + assert (Hio' : io (S n + i)%nat = None).
      { rewrite <- Hio. f_equal. lia. }
      rewrite (IH (index + 1) (S n) _ i t r Hnth Hio' Hin Hid). lia.
Qed.

(** C7 as stated fails on an array that lists an id twice: after reorder
    [3, 3] task 3 sits at position 1, not at position 0 of its first
    index. *)
Lemma reorder_duplicate_counterexample :
  ~ positions_follow_indices [3; 3]
      (store (serve (PUT_tasks_reorder (Some [3; 3])) no_fault db_three)).
Proof.
  intros H.
  specialize (H O 3 {| id := 3; title := JStr "c"; description := JNull;
                       done := 0; position := 1 |} eq_refl).
  assert (Hpos : 1 = 0); [| discriminate].
  apply H; [| reflexivity].
  vm_compute. auto.
Qed.

(** C7, amended.  For a reorder request whose array lists pairwise
    distinct ids: every row of a listed id [ti] whose update was carried
    out ends with position [i]; the set of tasks is unchanged; and in the
    next GET /tasks response the task of [ti] stands before the task of
    [tj] whenever [i < j] and both updates were carried out. *)
Theorem reorder_distinct (l : list Z) (io : nat -> option string)
  (db : database) :
  NoDup l ->
  let w := serve (PUT_tasks_reorder (Some l)) io db in
  map id (tasks (store w)) = map id (tasks db)
  /\ (forall i t r,
        nth_error l i = Some t -> io i = None ->
        In r (tasks (store w)) -> id r = t ->
        position r = Z.of_nat i)
  /\ (forall i j ti tj io' out a b,
        nth_error l i = Some ti -> nth_error l j = Some tj -> (i < j)%nat ->
        io i = None -> io j = None ->
        res (exch (serve GET_tasks io' (store w)))
        = Some {| status := 200; json := json_tasks out |} ->
        In a out -> In b out ->
        id (task_row a) = ti -> id (task_row b) = tj ->
        exists l1 l2 l3, out = l1 ++ a :: l2 ++ b :: l3).
Proof.
  intros Hnd w. subst w. rewrite serve_reorder. simpl store.
  assert (Hpos : forall i t r,
             nth_error l i = Some t -> io i = None ->
             In r (tasks (apply_updates io l 0 0 db)) -> id r = t ->
             position r = Z.of_nat i).
  { intros i t r Hnth Hio Hin Hid.
    now rewrite (apply_updates_position io l Hnd 0 O db i t r). }
  split; [apply apply_updates_ids |]. split; [exact Hpos |].
  intros i j ti tj io' out a b Hi Hj Hlt Hioi Hioj Hget Ha Hb Hida Hidb.
  apply get_tasks_rows in Hget as (_ & Hperm & Hsorted).
  apply (sorted_before (fun x => position (task_row x)) out Hsorted a b Ha Hb).
  assert (Hin : forall x, In x out ->
                  In (task_row x) (tasks (apply_updates io l 0 0 db))).
  { intros x Hx. apply (Permutation_in _ Hperm). now apply in_map. }
  rewrite (Hpos i ti (task_row a) Hi Hioi (Hin a Ha) Hida).
  rewrite (Hpos j tj (task_row b) Hj Hioj (Hin b Hb) Hidb).
  lia.
Qed.

Lemma reorder_distinct_witness :
  NoDup [3; 1; 2]
  /\ Forall (fun r => id r = 3 -> position r = 0)
        (tasks (store (serve (PUT_tasks_reorder (Some [3; 1; 2])) no_fault
                         db_three))).
Proof.
  assert (Hnd : NoDup [3; 1; 2]).
  { repeat constructor; simpl; intuition discriminate. }
  split; [exact Hnd |].
  destruct (reorder_distinct [3; 1; 2] no_fault db_three Hnd) as (_ & Hpos & _).
  apply Forall_forall. intros r Hin Hid.
  exact (Hpos O 3 r eq_refl eq_refl Hin Hid).
Defined.

(** The example of the specification: reorder [3, 1, 2], then list. *)
Example reorder_then_list :
  let w := serve (PUT_tasks_reorder (Some [3; 1; 2])) no_fault db_three in
  match res (exch (serve GET_tasks no_fault (store w))) with
  | Some {| status := 200; json := json_tasks out |} =>
      map (fun a => id (task_row a)) out = [3; 1; 2]
  | _ => False
  end.
Proof.
  vm_compute. reflexivity.
Qed.

(** ** The text round trip of the id lists *)

Lemma string_of_uint_chars d :
  all_chars sign_or_digit (NilEmpty.string_of_uint d) = true.
Proof.
  induction d; simpl; auto.
Qed.

Lemma show_chars z : all_chars sign_or_digit (show z) = true.
Proof.
  unfold show. destruct (Z.to_int z) as [d | d]; simpl;
    destruct d; simpl; auto using string_of_uint_chars.
Qed.

Lemma show_nonempty z : exists c r, show z = String c r.
Proof.
  unfold show. destruct (Z.to_int z) as [d | d]; simpl; [| eauto].
  destruct d; simpl; eauto.
Qed.

Lemma all_chars_impl (P Q : ascii -> bool) s :
  (forall c, P c = true -> Q c = true) ->
  all_chars P s = true -> all_chars Q s = true.
Proof.
  intros HPQ. induction s as [|c s IH]; simpl; [reflexivity |].
  intros H. apply andb_true_iff in H as [Hc Hs].
  now rewrite (HPQ c Hc), IH.
Qed.

Lemma sign_or_digit_plain c :
  sign_or_digit c = true ->
  is_white c = false /\ (c =? ",")%char = false /\ (c =? "+")%char = false.
Proof.
  destruct c as [[|] [|] [|] [|] [|] [|] [|] [|]]; simpl;
    intros H; try discriminate H; repeat split.
Qed.

(** A sign or a digit is none of the marks of a longer literal. *)
Lemma sign_or_digit_marks c :
  sign_or_digit c = true ->
  ((c =? "e")%char || (c =? "E")%char) = false
  /\ (c =? ".")%char = false
  /\ (c =? "I")%char = false
  /\ ((c =? "x")%char || (c =? "X")%char) = false
  /\ ((c =? "o")%char || (c =? "O")%char) = false
  /\ ((c =? "b")%char || (c =? "B")%char) = false.
Proof.
  destruct c as [[|] [|] [|] [|] [|] [|] [|] [|]]; simpl;
    intros H; try discriminate H; repeat split.
Qed.

Lemma trim_end_plain s :
  all_chars (fun c => negb (is_white c)) s = true -> trim_end s = s.
Proof.
  induction s as [|c s IH]; simpl; [reflexivity |].
  intros H. apply andb_true_iff in H as [Hc Hs]. rewrite (IH Hs).
  apply negb_true_iff in Hc. rewrite Hc. now destruct s.
Qed.

Lemma trim_plain s :
  all_chars (fun c => negb (is_white c)) s = true -> trim s = s.
Proof.
  intros H. unfold trim.
  assert (Hstart : trim_start s = s).
  { destruct s as [|c s]; simpl in *; [reflexivity |].
    apply andb_true_iff in H as [Hc _]. apply negb_true_iff in Hc.
    now rewrite Hc. }
  rewrite Hstart. now apply trim_end_plain.
Qed.

Lemma break_plain (P : ascii -> bool) s :
  all_chars (fun c => negb (P c)) s = true -> break P s = (s, None).
Proof.
  induction s as [|c s IH]; simpl; [reflexivity |].
  intros H. apply andb_true_iff in H as [Hc Hs].
  apply negb_true_iff in Hc. now rewrite Hc, (IH Hs).
Qed.

Lemma radix_literal_plain s :
  all_chars sign_or_digit s = true -> radix_literal s = None.
Proof.
  destruct s as [|c0 [|c1 [|c2 r]]].
  - reflexivity.
  - intros _. destruct c0 as [[|] [|] [|] [|] [|] [|] [|] [|]]; reflexivity.
  - intros _. destruct c0 as [[|] [|] [|] [|] [|] [|] [|] [|]]; reflexivity.
  - intros H. cbn [all_chars] in H.
    apply andb_true_iff in H as [_ H]. apply andb_true_iff in H as [H1 _].
    apply sign_or_digit_marks in H1 as (_ & _ & _ & Hx & Ho & Hb).
    unfold radix_literal.
    destruct c0 as [[|] [|] [|] [|] [|] [|] [|] [|]]; try reflexivity.
    now rewrite Hx, Ho, Hb.
Qed.

(** The text of a natural number reads back as that number. *)
Lemma decimal_literal_digits (d : uint) :
  d <> Nil ->
  decimal_literal (NilEmpty.string_of_uint d) = Some (Z.of_uint d, 0).
Proof.
  intros Hd. unfold decimal_literal.
  pose proof (string_of_uint_chars d) as Hchars.
  rewrite break_plain
    by (eapply all_chars_impl; [| exact Hchars]; intros c Hc;
        apply sign_or_digit_marks in Hc as (-> & _); reflexivity).
  rewrite break_plain
    by (eapply all_chars_impl; [| exact Hchars]; intros c Hc;
        apply sign_or_digit_marks in Hc as (_ & -> & _); reflexivity).
  assert (Happ : forall s, (s ++ "")%string = s).
  { induction s as [|c s IH]; simpl; [reflexivity | now rewrite IH]. }
  rewrite Happ.
  destruct (NilEmpty.string_of_uint d) as [|c r] eqn:Hs.
  { destruct d; simpl in Hs; congruence. }
  rewrite <- Hs. unfold digits. now rewrite NilEmpty.usu.
Qed.

Lemma decimal_value_integer (n : Z) :
  0 <= n -> representable n = true -> decimal_value n 0 = Num n.
Proof.
  intros Hn Hrep. unfold decimal_value.
  destruct (n =? 0) eqn:Hz; [apply Z.eqb_eq in Hz; now subst |].
  simpl. rewrite Z.mul_1_r, Z.mod_1_r, Z.div_1_r. simpl. now rewrite Hrep.
Qed.

Lemma representable_opp z : representable (- z) = representable z.
Proof.
  unfold representable. now rewrite Z.abs_opp.
Qed.

(** The text of a positive number: it starts with a digit and reads as
    the number. *)
Lemma natural_text p :
  exists c r,
    NilZero.string_of_uint (Pos.to_uint p) = String c r
    /\ sign_and_body (String c r) = (false, String c r)
    /\ (String c r =? "Infinity")%string = false
    /\ decimal_literal (String c r) = Some (Zpos p, 0).
Proof.
  pose proof (Unsigned.to_uint_nonnil p) as Hnil.
  pose proof (decimal_literal_digits _ Hnil) as Hlit.
  pose proof (string_of_uint_chars (Pos.to_uint p)) as Hchars.
  unfold Z.of_uint in Hlit. rewrite Unsigned.of_to in Hlit. simpl Z.of_N in Hlit.
  assert (Htext : NilZero.string_of_uint (Pos.to_uint p)
                  = NilEmpty.string_of_uint (Pos.to_uint p)).
  { destruct (Pos.to_uint p); [congruence | reflexivity ..]. }
  rewrite Htext.
  assert (Hdigit : forall c r,
             NilEmpty.string_of_uint (Pos.to_uint p) = String c r ->
             (c =? "-")%char = false).
  { intros c r Hs. destruct (Pos.to_uint p); simpl in Hs; try congruence;
      injection Hs as <- _; reflexivity. }
  destruct (NilEmpty.string_of_uint (Pos.to_uint p)) as [|c r] eqn:Hs.
  { destruct (Pos.to_uint p); simpl in Hs; congruence. }
  exists c, r. simpl in Hchars. apply andb_true_iff in Hchars as [Hc _].
  destruct (sign_or_digit_plain c Hc) as (_ & _ & Hplus).
  destruct (sign_or_digit_marks c Hc) as (_ & _ & HI & _).
  repeat split.
  - unfold sign_and_body. now rewrite (Hdigit c r eq_refl), Hplus.
  - simpl. now rewrite HI.
  - exact Hlit.
Qed.

(** [Number] reads back the integer that [show] printed, when a double
    holds it. *)
Lemma Number_of_show z : representable z = true -> Number (show z) = Num z.
Proof.
  intros Hrep. unfold Number, StringToNumber.
  pose proof (show_chars z) as Hchars.
  rewrite trim_plain
    by (eapply all_chars_impl; [| exact Hchars];
        intros c Hc; apply sign_or_digit_plain in Hc as (-> & _); reflexivity).
  destruct (show_nonempty z) as (c0 & r0 & Hshow). rewrite Hshow.
  rewrite <- Hshow. rewrite (radix_literal_plain _ Hchars).
  clear c0 r0 Hshow Hchars. unfold show.
  destruct z as [|p|p]; [reflexivity | |].
  - simpl Z.to_int. simpl NilZero.string_of_int.
    destruct (natural_text p) as (c & r & -> & -> & -> & ->).
    now apply decimal_value_integer.
  - simpl Z.to_int. simpl NilZero.string_of_int.
    destruct (natural_text p) as (c & r & -> & _ & Hinf & Hlit).
    change (sign_and_body (String "-" (String c r))) with (true, String c r).
    cbv iota beta. rewrite Hinf, Hlit.
    rewrite decimal_value_integer; [reflexivity | lia |].
    now rewrite <- representable_opp.
Qed.

Lemma split_plain sep w :
  all_chars (fun c => negb (c =? sep)%char) w = true -> split sep w = [w].
Proof.
  induction w as [|c w IH]; simpl; [reflexivity |].
  intros H. apply andb_true_iff in H as [Hc Hw].
  apply negb_true_iff in Hc. now rewrite Hc, (IH Hw).
Qed.

Lemma split_cons sep s : exists w ws, split sep s = w :: ws.
Proof.
  induction s as [|c s (w & ws & IH)]; simpl; [eauto |].
  destruct (c =? sep)%char; [eauto |]. rewrite IH. eauto.
Qed.

(** Splitting a text at a separator it holds splits the two sides. *)
Lemma split_app sep a b :
  split sep (a ++ String sep b)%string = split sep a ++ split sep b.
Proof.
  induction a as [|c a IH]; simpl.
  - now rewrite Ascii.eqb_refl.
  - destruct (c =? sep)%char; rewrite IH; [reflexivity |].
    destruct (split_cons sep a) as (w & ws & ->). reflexivity.
Qed.

(** [split] after [concat]: every joined text is split in its turn. *)
Lemma split_concat_pieces sep (ws : list string) :
  ws <> [] ->
  split sep (String.concat (String sep EmptyString) ws)
  = flat_map (split sep) ws.
Proof.
  induction ws as [|w ws IH]; [congruence | intros _].
  destruct ws as [|w' ws].
  - simpl. now rewrite app_nil_r.
  - change (String.concat (String sep EmptyString) (w :: w' :: ws))
      with (w ++ String sep (String.concat (String sep EmptyString) (w' :: ws)))%string.
    rewrite split_app, IH by discriminate. reflexivity.
Qed.

(** [split] undoes [concat] on words that do not hold the separator. *)
Lemma split_concat sep (ws : list string) :
  ws <> [] ->
  Forall (fun w => all_chars (fun c => negb (c =? sep)%char) w = true) ws ->
  split sep (String.concat (String sep EmptyString) ws) = ws.
Proof.
  intros Hne Hall. rewrite (split_concat_pieces _ _ Hne).
  clear Hne. induction Hall as [|w ws Hw _ IH]; simpl; [reflexivity |].
  now rewrite (split_plain _ _ Hw), IH.
Qed.

Lemma concat_nonempty sep (ws : list string) w :
  In w ws -> w <> EmptyString ->
  String.concat (String sep EmptyString) ws <> EmptyString.
Proof.
  intros Hin Hw. destruct ws as [|w0 ws]; [contradiction |].
  destruct ws as [|w1 ws].
  - destruct Hin as [-> | []]. exact Hw.
  - change (String.concat (String sep EmptyString) (w0 :: w1 :: ws))
      with (w0 ++ String sep (String.concat (String sep EmptyString) (w1 :: ws)))%string.
    destruct w0; discriminate.
Qed.

(** *** The values GROUP_CONCAT joins *)

Lemma insert_ascending_perm v l : Permutation (insert_ascending v l) (v :: l).
Proof.
  induction l as [|x l IH]; simpl; [reflexivity |].
  destruct (sqlval_leb v x); [reflexivity |].
  rewrite IH. apply perm_swap.
Qed.

Lemma ascending_perm l : Permutation (ascending l) l.
Proof.
  induction l as [|v l IH]; simpl; [constructor |].
  rewrite insert_ascending_perm. now constructor.
Qed.

Lemma distinct_values_NoDup l : NoDup (distinct_values l).
Proof.
  unfold distinct_values.
  apply (Permutation_NoDup (Permutation_sym (ascending_perm _))).
  apply NoDup_nodup.
Qed.

Lemma in_distinct_values l v :
  In v (distinct_values l) <-> In v l /\ is_null v = false.
Proof.
  unfold distinct_values. split.
  - intros Hin. apply (Permutation_in _ (ascending_perm _)) in Hin.
    apply nodup_In, filter_In in Hin as [Hin Hv].
    now apply negb_true_iff in Hv.
  - intros [Hin Hv].
    apply (Permutation_in _ (Permutation_sym (ascending_perm _))).
    apply nodup_In, filter_In. split; [exact Hin |]. now rewrite Hv.
Qed.

(** Lines 60-65 on a GROUP_CONCAT column of integers that doubles hold:
    they come back as numbers, one for one. *)
Lemma id_array_integers (zs : list Z) :
  Forall (fun z => representable z = true) zs ->
  id_array (match map SInt zs with
            | [] => None
            | v => Some (String.concat "," (map value_text v))
            end)
  = map Num zs.
Proof.
  intros Hall. destruct zs as [|z zs]; [reflexivity |].
  assert (Htexts : map value_text (map SInt (z :: zs)) = map show (z :: zs)).
  { rewrite map_map. reflexivity. }
  change (match map SInt (z :: zs) with
          | [] => None
          | v => Some (String.concat "," (map value_text v))
          end)
    with (Some (String.concat "," (map value_text (map SInt (z :: zs))))).
  rewrite Htexts. clear Htexts. set (l := z :: zs) in *. unfold id_array.
  assert (Hne : ToBoolean (JStr (String.concat "," (map show l))) = true).
  { unfold ToBoolean. apply negb_true_iff, String.eqb_neq.
    apply (concat_nonempty ","%char _ (show z)); [now left |].
    destruct (show_nonempty z) as (c & r & ->). discriminate. }
  rewrite Hne, (split_concat ","%char).
  - rewrite map_map. apply map_ext_in. intros k Hk.
    rewrite Forall_forall in Hall. now apply Number_of_show, Hall.
  - discriminate.
  - apply Forall_forall. intros w Hw. apply in_map_iff in Hw as (k & <- & _).
    eapply all_chars_impl; [| apply show_chars].
    intros c Hc. apply sign_or_digit_plain in Hc as (_ & -> & _). reflexivity.
Qed.

(** A list of non-NULL plain ids is a list of integers. *)
Lemma plain_ids_integers (l : list sqlval) :
  Forall (fun v => plain_id v /\ is_null v = false) l ->
  exists zs, l = map SInt zs /\ Forall (fun z => representable z = true) zs.
Proof.
  induction 1 as [|v l [Hplain Hnull] _ (zs & -> & Hall)].
  - exists []. split; [reflexivity | constructor].
  - destruct v as [|z|s]; [discriminate | | contradiction].
    exists (z :: zs). split; [reflexivity | now constructor].
Qed.

(** On a group that holds NULLs and integers only, the array of lines
    60-65 lists the integers of the group, each once. *)
Lemma id_array_group_concat (vals : list sqlval) :
  Forall plain_id vals ->
  exists zs,
    id_array (group_concat_distinct vals) = map Num zs
    /\ NoDup zs
    /\ forall z, In z zs <-> In (SInt z) vals.
Proof.
  intros Hplain.
  destruct (plain_ids_integers (distinct_values vals)) as (zs & Hzs & Hall).
  { apply Forall_forall. intros v Hv. apply in_distinct_values in Hv as [Hv Hn].
    rewrite Forall_forall in Hplain. auto. }
  exists zs. unfold group_concat_distinct. rewrite Hzs. split; [| split].
  - now apply id_array_integers.
  - apply (NoDup_map_inv SInt). rewrite <- Hzs. apply distinct_values_NoDup.
  - intros z. split.
    + intros Hin. apply (in_map SInt) in Hin. rewrite <- Hzs in Hin.
      now apply in_distinct_values in Hin as [Hin _].
    + intros Hin. assert (Hd : In (SInt z) (distinct_values vals))
        by (apply in_distinct_values; auto).
      rewrite Hzs in Hd. apply in_map_iff in Hd as (y & [= ->] & Hy). exact Hy.
Qed.

(** In any group, the array of lines 60-65 lists, for an integer of the
    group, the double its decimal text reads as. *)
Lemma id_array_lists (vals : list sqlval) (z : Z) :
  In (SInt z) vals ->
  In (Number (show z)) (id_array (group_concat_distinct vals)).
Proof.
  intros Hin.
  assert (Hd : In (SInt z) (distinct_values vals))
    by (apply in_distinct_values; auto).
  unfold group_concat_distinct.
  destruct (distinct_values vals) as [|v0 dv] eqn:Hdv; [contradiction |].
  rewrite <- Hdv in *. unfold id_array.
  assert (Htext : In (show z) (map value_text (distinct_values vals))).
  { apply in_map_iff. exists (SInt z). auto. }
  assert (Hne : ToBoolean (JStr (String.concat ","
                                   (map value_text (distinct_values vals))))
                = true).
  { unfold ToBoolean. apply negb_true_iff, String.eqb_neq.
    apply (concat_nonempty ","%char _ (show z) Htext).
    destruct (show_nonempty z) as (c & r & ->). discriminate. }
  rewrite Hne, (split_concat_pieces ","%char) by (rewrite Hdv; discriminate).
  apply in_map.
  apply in_flat_map. exists (show z). split; [exact Htext |].
  rewrite split_plain; [now left |].
  eapply all_chars_impl; [| apply show_chars].
  intros c Hc. apply sign_or_digit_plain in Hc as (_ & -> & _). reflexivity.
Qed.

(** That double is the integer itself when a double holds it. *)
Lemma id_array_member (vals : list sqlval) (z : Z) :
  In (SInt z) vals -> representable z = true ->
  In (Num z) (id_array (group_concat_distinct vals)).
Proof.
  intros Hin Hrep. rewrite <- (Number_of_show z Hrep).
  now apply id_array_lists.
Qed.

(** ** GET /tasks: the relationship arrays *)

Lemma filter_nil_iff {A : Type} (f : A -> bool) (l : list A) :
  filter f l = [] <-> forall x, In x l -> f x = false.
Proof.
  induction l as [|a l IH]; simpl; [tauto |].
  destruct (f a) eqn:Hfa.
  - split; [discriminate |]. intros H. specialize (H a (or_introl eq_refl)).
    congruence.
  - rewrite IH. split.
    + intros H x [<- | Hx]; auto.
    + intros H x Hx. apply H. now right.
Qed.

(** The rows of a LEFT JOIN: every left row, with each right row that
    matches it, or with NULL when none does. *)
Lemma in_left_join {A B : Type} (on : A -> B -> bool) l r a ob :
  In (a, ob) (left_join on l r) <->
  In a l /\ match ob with
            | Some b => In b r /\ on a b = true
            | None => forall b, In b r -> on a b = false
            end.
Proof.
  unfold left_join. rewrite in_flat_map. split.
  - intros (a' & Ha' & Hin).
    destruct (filter (on a') r) as [|b0 m] eqn:Hf.
    + destruct Hin as [[= <- <-] | []]. split; [exact Ha' |].
      now apply filter_nil_iff.
    + rewrite <- Hf in Hin. apply in_map_iff in Hin as (b & [= <- <-] & Hb).
      apply filter_In in Hb. tauto.
  - intros (Ha & Hob). exists a. split; [exact Ha |].
    destruct ob as [b|].
    + assert (Hb : In b (filter (on a) r)) by (apply filter_In; tauto).
      destruct (filter (on a) r) as [|b0 m]; [contradiction |].
      apply in_map_iff. eauto.
    + apply filter_nil_iff in Hob. rewrite Hob. now left.
Qed.

Lemma left_join_total {A B : Type} (on : A -> B -> bool) l r a :
  In a l -> exists ob, In (a, ob) (left_join on l r).
Proof.
  intros Ha. destruct (filter (on a) r) as [|b0 m] eqn:Hf.
  - exists None. apply in_left_join. split; [exact Ha |].
    now apply filter_nil_iff.
  - exists (Some b0). apply in_left_join. split; [exact Ha |].
    apply filter_In. rewrite Hf. now left.
Qed.

Section Groups.

Variable db : database.
Variable t : task.
Hypothesis Ht : In t (tasks db).

Let g : list joined :=
  filter (fun j : joined => id (fst (fst j)) =? id t) (from_joins db).

Let child_values : list sqlval :=
  map (fun j : joined => match snd (fst j) with
                         | Some pr => child_id pr
                         | None => SNull
                         end) g.

Let parent_values : list sqlval :=
  map (fun j : joined => match snd j with
                         | Some cr => parent_id cr
                         | None => SNull
                         end) g.

(** The non-NULL [pr.child_id] values in the group of [t] are the
    children the table records for [t]. *)
Lemma group_children v :
  is_null v = false ->
  (In v child_values
   <-> In {| parent_id := SInt (id t); child_id := v |} (task_relationships db)).
Proof.
  intros Hv. unfold child_values, g. rewrite in_map_iff. split.
  - intros ([[t' opr] ocr] & Hval & Hin). simpl in Hval.
    apply filter_In in Hin as [Hin Hid]. simpl in Hid.
    destruct opr as [[p c']|]; [| subst v; discriminate]. simpl in Hval.
    subst c'.
    apply in_left_join in Hin as [Hin _].
    apply in_left_join in Hin as (_ & Hpr & Hon).
    cbn [fst snd parent_id child_id] in Hon.
    apply sqlval_eqb_eq in Hon as [<- _].
    replace (id t) with (id t') by lia. exact Hpr.
  - intros Hpr.
    assert (H1 : In (t, Some {| parent_id := SInt (id t); child_id := v |})
                    (left_join (fun t0 pr => sqlval_eqb (SInt (id t0)) (parent_id pr))
                       (tasks db) (task_relationships db))).
    { apply in_left_join. simpl. rewrite Z.eqb_refl. auto. }
    destruct (left_join_total
                (fun (tp : task * option relationship) cr =>
                   sqlval_eqb (SInt (id (fst tp))) (child_id cr))
                _ (task_relationships db) _ H1) as (ocr & H2).
    exists (t, Some {| parent_id := SInt (id t); child_id := v |}, ocr).
    split; [reflexivity |]. apply filter_In. simpl. rewrite Z.eqb_refl. auto.
Qed.

(** The non-NULL [cr.parent_id] values in the group of [t] are the
    parents the table records for [t]. *)
Lemma group_parents v :
  is_null v = false ->
  (In v parent_values
   <-> In {| parent_id := v; child_id := SInt (id t) |} (task_relationships db)).
Proof.
  intros Hv. unfold parent_values, g. rewrite in_map_iff. split.
  - intros ([[t' opr] ocr] & Hval & Hin). simpl in Hval.
    apply filter_In in Hin as [Hin Hid]. simpl in Hid.
    destruct ocr as [[p' c]|]; [| subst v; discriminate]. simpl in Hval.
    subst p'.
    apply in_left_join in Hin as (_ & Hcr & Hon).
    cbn [fst snd parent_id child_id] in Hon.
    apply sqlval_eqb_eq in Hon as [<- _].
    replace (id t) with (id t') by lia. exact Hcr.
  - intros Hcr.
    destruct (left_join_total
                (fun t0 pr => sqlval_eqb (SInt (id t0)) (parent_id pr))
                (tasks db) (task_relationships db) t Ht) as (opr & H1).
    exists (t, opr, Some {| parent_id := v; child_id := SInt (id t) |}).
    split; [reflexivity |]. apply filter_In. simpl. rewrite Z.eqb_refl.
    split; [| reflexivity].
    apply in_left_join. simpl. rewrite Z.eqb_refl. auto.
Qed.

(** The values of a group come from the table, or are NULL. *)
Lemma group_values_plain :
  integer_ids db -> Forall plain_id child_values /\ Forall plain_id parent_values.
Proof.
  intros Hint. split; apply Forall_forall; intros v Hv.
  - destruct (is_null v) eqn:Hn; [destruct v; try discriminate; exact I |].
    apply (group_children v Hn) in Hv. now apply Hint in Hv as [_ Hv].
  - destruct (is_null v) eqn:Hn; [destruct v; try discriminate; exact I |].
    apply (group_parents v Hn) in Hv. now apply Hint in Hv as [Hv _].
Qed.

End Groups.




Lemma db_three_integer_ids : integer_ids db_three.
Proof.
  intros r Hin. vm_compute in Hin.
  destruct Hin as [<- | [<- | [<- | []]]]; split; reflexivity.
Qed.


(** ** Every request runs to its end *)

(** The budget of [serve] is enough: when the loop stops, no statement
    is left in the queue.  A response has been sent, but for the one
    PUT /tasks/:id whose callback throws while it builds its message. *)
Lemma serve_completes req io db :
  pending (exch (serve req io db)) = []
  /\ ((forall param dn, req = PUT_tasks_id param dn ->
                        throws_TypeError dn = false) ->
      exists r, res (exch (serve req io db)) = Some r).
Proof.
  destruct req as [| ttl dsc ps cs | [l|] | param dn | param].
  - rewrite serve_get. destruct (io 0%nat); simpl; eauto.
  - destruct (ToBoolean ttl) eqn:Ht.
    + rewrite (serve_post _ _ _ _ _ _ Ht). destruct (io 0%nat); simpl; eauto.
      destruct (relationships_of _ _ _); simpl; eauto.
      destruct (io 1%nat); simpl; eauto.
      destruct (insert_relationships _ _) as [db2 r2].
      destruct (err r2); simpl; eauto.
    + unfold serve, handler. rewrite Ht. simpl. eauto.
  - rewrite serve_reorder. simpl. eauto.
  - simpl. eauto.
  - rewrite serve_put. destruct (io 0%nat); simpl; eauto.
    destruct (update_done _ _ _) as [db' r'].
    destruct (changes r' =? 0); simpl; eauto.
    destruct (throws_TypeError dn) eqn:Hthrows; simpl; eauto.
    split; [reflexivity |]. intros H.
    now rewrite (H param dn eq_refl) in Hthrows.
  - rewrite serve_delete. destruct (io 0%nat); simpl; eauto.
    destruct (delete_task _ _) as [db' r'].
    destruct (changes r' =? 0); simpl; eauto.
Qed.

(** * Further properties of the handlers *)

(** ** Ids that name no task *)

Lemma record_tasks_eta db : set_tasks (tasks db) db = db.
Proof. now destruct db. Qed.

Lemma id_absent (k : Z) (l : list task) :
  ~ In k (map id l) -> forall t, In t l -> (id t =? k) = false.
Proof.
  intros Hnotin t Ht. apply Z.eqb_neq. intros <-.
  apply Hnotin. now apply in_map.
Qed.

Lemma count_id_absent (k : Z) (l : list task) :
  ~ In k (map id l) -> count_id k l = 0.
Proof.
  intros Hnotin. unfold count_id.
  replace (filter (fun t => id t =? k) l) with (@nil task); [reflexivity |].
  symmetry. apply filter_nil_iff. now apply id_absent.
Qed.

Lemma map_fixed {A : Type} (f : A -> A) (l : list A) :
  (forall x, In x l -> f x = x) -> map f l = l.
Proof.
  intros H. rewrite <- (map_id l) at 2. now apply map_ext_in.
Qed.

Lemma filter_all {A : Type} (f : A -> bool) (l : list A) :
  (forall x, In x l -> f x = true) -> filter f l = l.
Proof.
  induction l as [|a l IH]; simpl; intros H; [reflexivity |].
  rewrite (H a (or_introl eq_refl)), IH; auto.
Qed.

Lemma update_done_unknown flag param db :
  names_no_task param db -> update_done flag param db = (db, success 0 0).
Proof.
  intros Hno. unfold update_done.
  destruct (text_to_integer param) as [k|] eqn:Hk; [| reflexivity].
  specialize (Hno k Hk).
  rewrite (count_id_absent _ _ Hno), map_fixed, record_tasks_eta;
    [reflexivity |].
  intros t Ht. now rewrite (id_absent _ _ Hno t Ht).
Qed.

Lemma delete_task_unknown param db :
  names_no_task param db -> delete_task param db = (db, success 0 0).
Proof.
  intros Hno. unfold delete_task.
  destruct (text_to_integer param) as [k|] eqn:Hk; [| reflexivity].
  specialize (Hno k Hk).
  rewrite (count_id_absent _ _ Hno), filter_all.
  - rewrite andb_false_r. now destruct db.
  - intros t Ht. now rewrite (id_absent _ _ Hno t Ht).
Qed.

Lemma serve_delete_unknown param io db :
  names_no_task param db -> io 0%nat = None ->
  serve (DELETE_tasks_id param) io db
  = {| store := db; exch := not_found; clock := 1 |}.
Proof.
  intros Hno Hio. now rewrite serve_delete, Hio, (delete_task_unknown _ _ Hno).
Qed.

Lemma serve_put_unknown param dn io db :
  names_no_task param db -> io 0%nat = None ->
  serve (PUT_tasks_id param dn) io db
  = {| store := db; exch := not_found; clock := 1 |}.
Proof.
  intros Hno Hio. now rewrite serve_put, Hio, (update_done_unknown _ _ _ Hno).
Qed.

(** X1.  PUT /tasks/:id and DELETE /tasks/:id on a parameter that names
    no stored task are answered 404 "Task not found" (not 500), and leave
    the store exactly as it was. *)
Theorem unknown_id_404 (param : string) (dn : jsval)
  (io : nat -> option string) (db : database) :
  names_no_task param db -> io 0%nat = None ->
  let answer := Some {| status := 404; json := json_error "Task not found" |} in
  (res (exch (serve (PUT_tasks_id param dn) io db)) = answer
   /\ store (serve (PUT_tasks_id param dn) io db) = db)
  /\ (res (exch (serve (DELETE_tasks_id param) io db)) = answer
      /\ store (serve (DELETE_tasks_id param) io db) = db).
Proof.
  intros Hno Hio. cbv zeta.
  rewrite (serve_put_unknown _ _ _ _ Hno Hio).
  rewrite (serve_delete_unknown _ _ _ Hno Hio). repeat split.
Qed.

Lemma unknown_id_404_witness :
  res (exch (serve (DELETE_tasks_id "7") no_fault db_three))
  = Some {| status := 404; json := json_error "Task not found" |}
  /\ res (exch (serve (PUT_tasks_id "abc" (JBool true)) no_fault db_three))
     = Some {| status := 404; json := json_error "Task not found" |}.
Proof.
  split.
  - apply (unknown_id_404 "7" JNull no_fault db_three); [| reflexivity].
    intros k [= <-]. simpl. intuition discriminate.
  - apply (unknown_id_404 "abc" (JBool true) no_fault db_three);
      [| reflexivity].
    intros k [=].
Defined.


(** Text that SQLite reads as the number 1 does name task 1. *)
Example decimal_text_names_task :
  map (fun param =>
         option_map status
           (res (exch (serve (DELETE_tasks_id param) no_fault db_one))))
      ["1.0"; "1e0"; " 1"; "+1"; "01"; "1.5"; "0x1"; "1a"]
  = [Some 200; Some 200; Some 200; Some 200; Some 200;
     Some 404; Some 404; Some 404].
Proof. vm_compute. reflexivity. Qed.

(** ** Task ids *)

Lemma next_id_above (db : database) :
  sqlite_sequence db < next_id db
  /\ forall t, In t (tasks db) -> id t < next_id db.
Proof.
  unfold next_id. induction (tasks db) as [|u l [IHs IHl]]; simpl.
  - split; [lia | tauto].
  - split; [lia |]. intros t [<- | Ht]; [lia |].
    specialize (IHl t Ht). lia.
Qed.

(** Dropping rows keeps the remaining ids distinct. *)
Lemma kept_ids_distinct (keep : task -> bool) (rows : list task) :
  NoDup (map id rows) -> NoDup (map id (filter keep rows)).
Proof.
  induction rows as [|t rows IH]; simpl; intros Hnd; [constructor |].
  apply NoDup_cons_iff in Hnd as [Hfresh Hrest].
  destruct (keep t); simpl; [| now apply IH].
  apply NoDup_cons_iff. split; [| now apply IH].
  rewrite in_map_iff. intros (u & Hid & Hu).
  apply filter_In in Hu as [Hu _].
  apply Hfresh. rewrite <- Hid. now apply in_map.
Qed.

Lemma run_ids_well_formed fault q db :
  ids_well_formed db -> ids_well_formed (fst (run fault q db)).
Proof.
  intros (Hnd & Hseq & Hall). destruct fault as [e|]; [repeat split; auto |].
  destruct q; simpl.
  - repeat split; auto.
  - assert (Hnew : ids_well_formed (with_new_task ttl dsc db)).
    { destruct (next_id_above db) as [Hs Hl]. unfold ids_well_formed. simpl.
      split; [| split; [lia |]].
      - rewrite map_app. simpl.
        apply (Permutation_NoDup (Permutation_cons_append _ _)).
        constructor; [| exact Hnd].
        intros Hin. apply in_map_iff in Hin as (t & Hid & Ht).
        specialize (Hl t Ht). lia.
      - apply Forall_app. split.
        + eapply Forall_impl; [| exact Hall]. simpl. intros; lia.
        + constructor; [| constructor]. simpl.
          rewrite Forall_forall in Hall. lia. }
    destruct ttl; try exact Hnew; repeat split; auto.
  - destruct (insert_relationships_cases (bind_pairs relationshipValues) db)
      as [[e ->] | ->]; repeat split; auto.
  - unfold ids_well_formed. simpl. rewrite map_map. split; [| split; [exact Hseq |]].
    + erewrite map_ext; [exact Hnd |]. intros t. now destruct (id t =? taskId).
    + apply Forall_map. eapply Forall_impl; [| exact Hall].
      intros t Ht. now destruct (id t =? taskId).
  - unfold update_done. destruct (text_to_integer param) as [k|];
      [| repeat split; auto].
    unfold ids_well_formed. simpl. rewrite map_map.
    split; [| split; [exact Hseq |]].
    + erewrite map_ext; [exact Hnd |]. intros t. now destruct (id t =? k).
    + apply Forall_map. eapply Forall_impl; [| exact Hall].
      intros t Ht. now destruct (id t =? k).
  - unfold delete_task. destruct (text_to_integer param) as [k|];
      [| repeat split; auto].
    unfold ids_well_formed. simpl. split; [| split; [exact Hseq |]].
    + now apply kept_ids_distinct.
    + rewrite Forall_forall in *. intros t Ht. apply filter_In in Ht as [Ht _].
      auto.
Qed.

Lemma serve_ids_well_formed req io db :
  ids_well_formed db -> ids_well_formed (store (serve req io db)).
Proof.
  apply (serve_store ids_well_formed).
  intros fault q d. apply run_ids_well_formed.
Qed.

Lemma reachable_ids_well_formed db : reachable db -> ids_well_formed db.
Proof.
  induction 1 as [|req io db _ IH]; [| now apply serve_ids_well_formed].
  repeat split; simpl; [constructor | lia | constructor].
Qed.

(** X5.  In every state the endpoints can reach, and after every request
    on a store that has the property, the ids of [tasks] are pairwise
    distinct, positive, and bounded by the AUTOINCREMENT counter. *)
Theorem task_ids_unique :
  (forall db, reachable db -> ids_well_formed db)
  /\ (forall req io db,
        ids_well_formed db -> ids_well_formed (store (serve req io db))).
Proof.
  split; [exact reachable_ids_well_formed | exact serve_ids_well_formed].
Qed.

Lemma task_ids_unique_witness :
  NoDup (map id (tasks (store (serve (DELETE_tasks_id "2") no_fault db_three)))).
Proof.
  apply (proj1 task_ids_unique). constructor. apply db_three_reachable.
Defined.

Lemma run_sequence_mono fault q db :
  sqlite_sequence db <= sqlite_sequence (fst (run fault q db)).
Proof.
  destruct fault as [e|]; [simpl; lia |]. destruct q; simpl; try lia.
  - destruct (next_id_above db) as [Hs _]. destruct ttl; simpl; lia.
  - destruct (insert_relationships_cases (bind_pairs relationshipValues) db)
      as [[e ->] | ->]; simpl; lia.
  - unfold update_done. destruct (text_to_integer param); simpl; lia.
  - unfold delete_task. destruct (text_to_integer param); simpl; lia.
Qed.

Lemma later_sequence_mono db db' :
  later db db' -> sqlite_sequence db <= sqlite_sequence db'.
Proof.
  induction 1 as [|req io db' _ IH]; [lia |].
  apply (serve_store (fun d => sqlite_sequence db <= sqlite_sequence d));
    [| exact IH].
  intros fault q d Hd. pose proof (run_sequence_mono fault q d). lia.
Qed.

(** The id that a POST /tasks answered 200 reports. *)
Lemma post_reports_next_id ttl dsc ps cs io db taskId ttl' dsc' :
  res (exch (serve (POST_tasks ttl dsc ps cs) io db))
  = Some {| status := 200; json := json_created taskId ttl' dsc' |} ->
  taskId = next_id db /\ ToBoolean ttl = true /\ io 0%nat = None.
Proof.
  destruct (ToBoolean ttl) eqn:Ht.
  2:{ unfold serve, handler. rewrite Ht. simpl. discriminate. }
  rewrite (serve_post _ _ _ _ _ _ Ht).
  destruct (io 0%nat) as [e|]; [discriminate |]. cbv zeta.
  destruct (relationships_of _ _ _) as [|r0 rels].
  - simpl. intros [= <- _ _]. auto.
  - destruct (io 1%nat) as [e|]; [discriminate |].
    destruct (insert_relationships _ _) as [db2 r].
    destruct (err r); simpl; [discriminate |]. intros [= <- _ _]. auto.
Qed.

(** X6.  Ids are never handed out twice: once an id has named a task,
    every task created afterwards, by however many requests later and
    also after the first one was deleted, gets a larger id. *)
Theorem ids_never_reused (db db' : database) (k : Z)
  ttl dsc ps cs io taskId ttl' dsc' :
  reachable db ->
  In k (map id (tasks db)) ->
  later db db' ->
  res (exch (serve (POST_tasks ttl dsc ps cs) io db'))
  = Some {| status := 200; json := json_created taskId ttl' dsc' |} ->
  k < taskId.
Proof.
  intros Hreach Hk Hlater Hpost.
  apply post_reports_next_id in Hpost as (-> & _ & _).
  destruct (reachable_ids_well_formed db Hreach) as (_ & _ & Hall).
  apply in_map_iff in Hk as (t & <- & Ht).
  rewrite Forall_forall in Hall. specialize (Hall t Ht).
  pose proof (later_sequence_mono _ _ Hlater).
  destruct (next_id_above db') as [Hs _]. lia.
Qed.

Lemma ids_never_reused_witness :
  res (exch (serve (POST_tasks (JStr "d") JUndefined None None) no_fault
               (store (serve (DELETE_tasks_id "3") no_fault db_three))))
  = Some {| status := 200; json := json_created 4 (JStr "d") JUndefined |}
  /\ 3 < 4.
Proof.
  split; [reflexivity |].
  apply (ids_never_reused db_three
           (store (serve (DELETE_tasks_id "3") no_fault db_three)) 3
           (JStr "d") JUndefined None None no_fault 4 (JStr "d") JUndefined
           db_three_reachable);
    [simpl; auto | constructor; constructor | reflexivity].
Defined.

(** ** Failures of the store *)

(** X3.  When the first statement of GET /tasks, of a POST /tasks with a
    title, of PUT /tasks/:id or of DELETE /tasks/:id fails in the store,
    the response is 500 with the store's own message, and the database is
    unchanged. *)
Theorem store_failure_500 (req : request) (io : nat -> option string)
  (db : database) (e : string) :
  reports_failure req ->
  io 0%nat = Some e ->
  res (exch (serve req io db)) = Some {| status := 500; json := json_error e |}
  /\ store (serve req io db) = db.
Proof.
  intros Hreq Hio. destruct req as [| ttl dsc ps cs | l | param dn | param];
    simpl in Hreq.
  - now rewrite serve_get, Hio.
  - now rewrite (serve_post _ _ _ _ _ _ Hreq), Hio.
  - contradiction.
  - now rewrite serve_put, Hio.
  - now rewrite serve_delete, Hio.
Qed.

Lemma store_failure_500_witness :
  res (exch (serve GET_tasks (fun _ => Some "SQLITE_IOERR: disk I/O error")
               db_three))
  = Some {| status := 500; json := json_error "SQLITE_IOERR: disk I/O error" |}.
Proof.
  apply (store_failure_500 GET_tasks _ db_three "SQLITE_IOERR: disk I/O error");
    [exact I | reflexivity].
Defined.

Lemma update_position_unknown index k db :
  ~ In k (map id (tasks db)) -> fst (update_position index k db) = db.
Proof.
  intros Hno. simpl. rewrite map_fixed; [apply record_tasks_eta |].
  intros t Ht. now rewrite (id_absent _ _ Hno t Ht).
Qed.

Lemma apply_updates_unknown io l :
  forall index n db,
    (forall k, In k l -> ~ In k (map id (tasks db))) ->
    apply_updates io l index n db = db.
Proof.
  induction l as [|k l IH]; intros index n db Hno; simpl; [reflexivity |].
  assert (Hsame : fst (run (io n) (UPDATE_position index k) db) = db).
  { destruct (io n); [reflexivity |].
    apply update_position_unknown, Hno. now left. }
  rewrite Hsame. apply IH. intros k' Hk'. apply Hno. now right.
Qed.

(** X4.  PUT /tasks/reorder with a body whose [tasks] is not an array is
    answered 400 "Tasks must be an array" without a single statement.
    With an array of ids none of which names a task it is answered 200,
    and the store is exactly as before: the ids are not checked. *)
Theorem reorder_edge_cases (l : list Z) (io : nat -> option string)
  (db : database) :
  (res (exch (serve (PUT_tasks_reorder None) io db))
   = Some {| status := 400; json := json_error "Tasks must be an array" |}
   /\ store (serve (PUT_tasks_reorder None) io db) = db
   /\ clock (serve (PUT_tasks_reorder None) io db) = O)
  /\ ((forall k, In k l -> ~ In k (map id (tasks db))) ->
      res (exch (serve (PUT_tasks_reorder (Some l)) io db))
      = Some {| status := 200;
                json := json_message "Tasks reordered successfully" |}
      /\ store (serve (PUT_tasks_reorder (Some l)) io db) = db).
Proof.
  split; [repeat split |]. intros Hno. rewrite serve_reorder. simpl.
  split; [reflexivity |]. now apply apply_updates_unknown.
Qed.

Lemma reorder_edge_cases_witness :
  store (serve (PUT_tasks_reorder (Some [7; 8])) no_fault db_three) = db_three.
Proof.
  apply (reorder_edge_cases [7; 8] no_fault db_three).
  intros k [<- | [<- | []]]; simpl; intuition discriminate.
Defined.

(** ** DELETE /tasks/:id on a stored task *)

(** An id at or below the AUTOINCREMENT counter that names no row stays
    without a row, whatever statement runs. *)
Lemma run_stays_deleted (k : Z) fault q db :
  ~ In k (map id (tasks db)) /\ k <= sqlite_sequence db ->
  ~ In k (map id (tasks (fst (run fault q db))))
  /\ k <= sqlite_sequence (fst (run fault q db)).
Proof.
  intros [Hout Hseq]. split.
  2:{ pose proof (run_sequence_mono fault q db). lia. }
  destruct fault as [e|]; [exact Hout |]. destruct q; simpl; try exact Hout.
  - destruct (next_id_above db) as [Hs _].
    destruct ttl; try exact Hout; simpl; rewrite map_app, in_app_iff;
      simpl; intros [Hin | [Hin | []]]; try contradiction; lia.
  - destruct (insert_relationships_cases (bind_pairs relationshipValues) db)
      as [[e ->] | ->]; exact Hout.
  - rewrite map_map. erewrite map_ext; [exact Hout |].
    intros t. now destruct (id t =? taskId).
  - unfold update_done. destruct (text_to_integer param) as [j|];
      [| exact Hout].
    simpl. rewrite map_map. erewrite map_ext; [exact Hout |].
    intros t. now destruct (id t =? j).
  - unfold delete_task. destruct (text_to_integer param) as [j|];
      [| exact Hout].
    simpl. intros Hin. apply in_map_iff in Hin as (t & Hid & Ht).
    apply filter_In in Ht as [Ht _]. apply Hout. rewrite <- Hid.
    now apply in_map.
Qed.

Lemma later_stays_deleted (k : Z) db db' :
  later db db' ->
  ~ In k (map id (tasks db)) /\ k <= sqlite_sequence db ->
  ~ In k (map id (tasks db')) /\ k <= sqlite_sequence db'.
Proof.
  induction 1 as [|req io db' _ IH]; [auto |]. intros Hk.
  apply (serve_store (fun d => ~ In k (map id (tasks d))
                               /\ k <= sqlite_sequence d)); [| auto].
  intros fault q d. apply run_stays_deleted.
Qed.

(** X2.  In a state the endpoints can reach, DELETE /tasks/:id on a
    stored id is answered 200; the rows of [tasks] that remain are those
    of the other ids; the same DELETE sent again is answered 404; and
    after any number of further requests, no GET /tasks lists the id. *)
Theorem delete_existing (param : string) (k : Z)
  (io io' : nat -> option string) (db : database) :
  reachable db ->
  text_to_integer param = Some k ->
  In k (map id (tasks db)) ->
  io 0%nat = None -> io' 0%nat = None ->
  let w := serve (DELETE_tasks_id param) io db in
  res (exch w)
  = Some {| status := 200; json := json_message "Task deleted successfully" |}
  /\ (forall t, In t (tasks (store w)) <-> In t (tasks db) /\ id t <> k)
  /\ res (exch (serve (DELETE_tasks_id param) io' (store w)))
     = Some {| status := 404; json := json_error "Task not found" |}
  /\ (forall db' io'' out a,
        later (store w) db' ->
        res (exch (serve GET_tasks io'' db'))
        = Some {| status := 200; json := json_tasks out |} ->
        In a out -> id (task_row a) <> k).
Proof.
  intros Hreach Hk Hin Hio Hio'. cbv zeta.
  assert (Hrows : forall t,
             In t (tasks (store (serve (DELETE_tasks_id param) io db)))
             <-> In t (tasks db) /\ id t <> k).
  { intros t. rewrite serve_delete, Hio. unfold delete_task. rewrite Hk.
    simpl. destruct (count_id k (tasks db) =? 0); simpl;
      rewrite filter_In, negb_true_iff, Z.eqb_neq; tauto. }
  assert (Hgone : ~ In k (map id (tasks (store (serve (DELETE_tasks_id param)
                                                  io db))))).
  { intros Hin'. apply in_map_iff in Hin' as (t & Hid & Ht).
    apply Hrows in Ht. tauto. }
  split; [| split; [exact Hrows | split]].
  - rewrite serve_delete, Hio. unfold delete_task. rewrite Hk.
    pose proof (count_id_positive _ _ Hin) as Hpos. simpl.
    destruct (count_id k (tasks db) =? 0) eqn:Hz; [lia | reflexivity].
  - rewrite serve_delete_unknown; [reflexivity | | exact Hio'].
    intros k' Hk'. rewrite Hk in Hk'. injection Hk' as <-. exact Hgone.
  - intros db' io'' out a Hlater Hget Ha.
    assert (Hbound : k <= sqlite_sequence
                            (store (serve (DELETE_tasks_id param) io db))).
    { destruct (reachable_ids_well_formed db Hreach) as (_ & _ & Hall).
      apply in_map_iff in Hin as (t & <- & Ht).
      rewrite Forall_forall in Hall. specialize (Hall t Ht).
      pose proof (later_sequence_mono db _
                    (later_serve db (DELETE_tasks_id param) io db
                       (later_now db))).
      lia. }
    destruct (later_stays_deleted k _ _ Hlater (conj Hgone Hbound))
      as [Hout _].
    apply get_tasks_rows in Hget as (_ & Hperm & _).
    intros Hid. apply Hout. rewrite <- Hid.
    apply (in_map id). apply (Permutation_in _ Hperm). now apply in_map.
Qed.

Lemma delete_existing_witness :
  res (exch (serve (DELETE_tasks_id "2") no_fault
               (store (serve (DELETE_tasks_id "2") no_fault db_three))))
  = Some {| status := 404; json := json_error "Task not found" |}
  /\ forall out a,
       res (exch (serve GET_tasks no_fault
                    (store (serve (POST_tasks (JStr "d") JUndefined None None)
                              no_fault
                              (store (serve (DELETE_tasks_id "2") no_fault
                                        db_three))))))
       = Some {| status := 200; json := json_tasks out |} ->
       In a out -> id (task_row a) <> 2.
Proof.
  destruct (delete_existing "2" 2 no_fault no_fault db_three
              db_three_reachable eq_refl) as (_ & _ & Hagain & Hlater);
    [simpl; auto | reflexivity | reflexivity |].
  split; [exact Hagain |].
  intros out a. apply Hlater. constructor. constructor.
Defined.

(** ** POST /tasks: when it succeeds, and what a failure leaves *)







(** More rows than one statement can bind: 128 * 128 pairs need 32768
    variables. *)
Example post_too_many_variables :
  res (exch (serve (POST_tasks (JStr "d") JNull
                      (Some (repeat SNull (128 * 128))) None) no_fault open_db))
  = Some {| status := 500;
            json := json_error "SQLITE_ERROR: too many SQL variables" |}.
Proof. vm_compute. reflexivity. Qed.

(** X8.  A POST /tasks that is answered 500 after its first statement
    went through is not undone: the new task row stays in [tasks], under
    a fresh id, with no relationship row added. *)
Theorem post_failure_keeps_task ttl dsc ps cs (io : nat -> option string)
  (db : database) (p : payload) :
  ToBoolean ttl = true ->
  io 0%nat = None ->
  let w := serve (POST_tasks ttl dsc ps cs) io db in
  res (exch w) = Some {| status := 500; json := p |} ->
  (exists t, tasks (store w) = tasks db ++ [t]
             /\ ~ In (id t) (map id (tasks db)))
  /\ task_relationships (store w) = task_relationships db
  /\ clock w = 2%nat.
Proof.
  intros Ht Hio. cbv zeta. rewrite (serve_post _ _ _ _ _ _ Ht), Hio. cbv zeta.
  assert (Hfresh : ~ In (id (new_task ttl dsc db)) (map id (tasks db))).
  { intros Hin. apply in_map_iff in Hin as (t & Hid & Hin).
    destruct (next_id_above db) as [_ Hl]. specialize (Hl t Hin).
    simpl in Hid. lia. }
  destruct (relationships_of _ _ _) as [|r0 rels]; [discriminate |].
  destruct (io 1%nat) as [e|].
  - intros _. simpl. split; [| auto]. exists (new_task ttl dsc db). auto.
  - destruct (insert_relationships_cases (r0 :: rels) (with_new_task ttl dsc db))
      as [[e ->] | ->]; simpl; [| discriminate].
    intros _. split; [| auto]. exists (new_task ttl dsc db). auto.
Qed.

Lemma post_failure_keeps_task_witness :
  task_relationships
    (store (serve (POST_tasks (JStr "d") JNull (Some [SInt 1; SInt 1]) None) no_fault
              db_three))
  = task_relationships db_three.
Proof.
  apply (post_failure_keeps_task (JStr "d") JNull (Some [SInt 1; SInt 1]) None no_fault
           db_three
           (json_error "SQLITE_CONSTRAINT: UNIQUE constraint failed: task_relationships.parent_id, task_relationships.child_id")
           eq_refl eq_refl).
  reflexivity.
Defined.

(** ** What reorder and set-done leave alone *)

Lemma run_update_frame fault index k db :
  let db' := fst (run fault (UPDATE_position index k) db) in
  task_relationships db' = task_relationships db
  /\ map but_position (tasks db') = map but_position (tasks db).
Proof.
  destruct fault; simpl; [auto |]. split; [reflexivity |].
  rewrite map_map. apply map_ext. intros t. now destruct (id t =? k).
Qed.

Lemma apply_updates_frame io l :
  forall index n db,
    task_relationships (apply_updates io l index n db) = task_relationships db
    /\ map but_position (tasks (apply_updates io l index n db))
       = map but_position (tasks db).
Proof.
  induction l as [|k l IH]; intros index n db; simpl; [auto |].
  destruct (IH (index + 1) (S n)
              (fst (run (io n) (UPDATE_position index k) db))) as [-> ->].
  apply run_update_frame.
Qed.

(** X9.  PUT /tasks/reorder changes positions only: the relationship
    table, and the id, title, description and done flag of every task,
    are as before, whatever the array lists and whatever fails; and a
    task whose id is not listed keeps its whole row. *)
Theorem reorder_frame (l : list Z) (io : nat -> option string) (db : database) :
  let w := serve (PUT_tasks_reorder (Some l)) io db in
  task_relationships (store w) = task_relationships db
  /\ map but_position (tasks (store w)) = map but_position (tasks db)
  /\ (forall r, In r (tasks (store w)) -> ~ In (id r) l -> In r (tasks db)).
Proof.
  cbv zeta. rewrite serve_reorder. simpl store.
  destruct (apply_updates_frame io l 0 O db) as [Hrels Hrows].
  split; [exact Hrels | split; [exact Hrows |]].
  intros r Hin Hnot.
  now apply (apply_updates_other io l (id r) Hnot 0 O db r).
Qed.

Lemma update_done_twice flag param db :
  fst (update_done flag param (fst (update_done flag param db)))
  = fst (update_done flag param db).
Proof.
  unfold update_done. destruct (text_to_integer param) as [k|]; [| reflexivity].
  simpl. unfold set_tasks. simpl. f_equal.
  rewrite map_map. apply map_ext. intros t.
  destruct (id t =? k) eqn:Hid; simpl; now rewrite Hid.
Qed.

(** X10.  PUT /tasks/:id changes done flags only: the relationship table,
    and the id, title, description and position of every task, are as
    before.  Once it has been carried out, sending the same request again
    changes nothing more. *)
Theorem put_done_frame (param : string) (dn : jsval)
  (io io' : nat -> option string) (db : database) :
  let w := serve (PUT_tasks_id param dn) io db in
  task_relationships (store w) = task_relationships db
  /\ map but_done (tasks (store w)) = map but_done (tasks db)
  /\ (io 0%nat = None ->
      store (serve (PUT_tasks_id param dn) io' (store w)) = store w).
Proof.
  cbv zeta. rewrite !serve_put.
  assert (Hframe : forall flag,
             task_relationships (fst (update_done flag param db))
             = task_relationships db
             /\ map but_done (tasks (fst (update_done flag param db)))
                = map but_done (tasks db)).
  { intros flag. unfold update_done.
    destruct (text_to_integer param) as [k|]; simpl; [| auto].
    split; [reflexivity |]. rewrite map_map. apply map_ext. intros t.
    now destruct (id t =? k). }
  destruct (io 0%nat) as [e|].
  - simpl. repeat split; auto. discriminate.
  - pose proof (Hframe (if ToBoolean dn then 1 else 0)) as [Hrels Hrows].
    pose proof (update_done_twice (if ToBoolean dn then 1 else 0) param db)
      as Htwice.
    destruct (update_done (if ToBoolean dn then 1 else 0) param db)
      as [db1 r1]. simpl in *.
    split; [exact Hrels | split; [exact Hrows |]]. intros _.
    destruct (io' 0%nat) as [e|]; [reflexivity |].
    destruct (update_done (if ToBoolean dn then 1 else 0) param db1)
      as [db2 r2]. simpl in *. exact Htwice.
Qed.

Lemma put_done_frame_witness :
  store (serve (PUT_tasks_id "2" (JBool true)) no_fault
           (store (serve (PUT_tasks_id "2" (JBool true)) no_fault db_three)))
  = store (serve (PUT_tasks_id "2" (JBool true)) no_fault db_three).
Proof.
  apply (put_done_frame "2" (JBool true) no_fault no_fault db_three).
  reflexivity.
Defined.

(** ** GET /tasks as a whole *)

(** X11.  GET /tasks never changes the store.  When its statement goes
    through it is answered 200 with one task object for each row of
    [tasks], in ascending order of position. *)
Theorem get_lists_all (io : nat -> option string) (db : database) :
  store (serve GET_tasks io db) = db
  /\ (io 0%nat = None ->
      exists out,
        res (exch (serve GET_tasks io db))
        = Some {| status := 200; json := json_tasks out |}
        /\ Permutation (map task_row out) (tasks db)
        /\ StronglySorted
             (fun a b => position (task_row a) <= position (task_row b)) out).
Proof.
  split.
  - rewrite serve_get. now destruct (io 0%nat).
  - intros Hio.
    exists (map to_json (order_by_position (group_by_id db))).
    assert (Hres : res (exch (serve GET_tasks io db))
                   = Some {| status := 200;
                             json := json_tasks
                                       (map to_json
                                          (order_by_position (group_by_id db))) |}).
    { now rewrite serve_get, Hio. }
    split; [exact Hres |]. now apply get_tasks_rows in Hres as (_ & ? & ?).
Qed.

Lemma get_lists_all_witness :
  exists out,
    res (exch (serve GET_tasks no_fault db_three))
    = Some {| status := 200; json := json_tasks out |}
    /\ Permutation (map task_row out) (tasks db_three).
Proof.
  destruct (proj2 (get_lists_all no_fault db_three) eq_refl)
    as (out & Hres & Hperm & _).
  exists out. split; [exact Hres | exact Hperm].
Defined.



(** An id above [2 ^ 53] that no double holds comes back as its
    neighbour. *)
Example id_list_round_trip_rounds :
  id_array (Some (show 9007199254740993)) = [Num 9007199254740992].
Proof. vm_compute. reflexivity. Qed.

(** ** Creating, then listing *)

(** The store behind a POST /tasks answered 200. *)
Lemma post_200_store ttl dsc ps cs io db p :
  res (exch (serve (POST_tasks ttl dsc ps cs) io db))
  = Some {| status := 200; json := p |} ->
  p = json_created (next_id db) ttl dsc
  /\ tasks (store (serve (POST_tasks ttl dsc ps cs) io db))
     = tasks db ++ [new_task ttl dsc db]
  /\ task_relationships (store (serve (POST_tasks ttl dsc ps cs) io db))
     = task_relationships db
       ++ relationships_of (next_id db) (default_list ps) (default_list cs).
Proof.
  destruct (ToBoolean ttl) eqn:Ht.
  2:{ unfold serve, handler. rewrite Ht. simpl. discriminate. }
  rewrite (serve_post _ _ _ _ _ _ Ht).
  destruct (io 0%nat) as [e|]; [discriminate |]. cbv zeta.
  destruct (relationships_of _ _ _) as [|r0 rels].
  - simpl. intros [= <-]. now rewrite app_nil_r.
  - destruct (io 1%nat) as [e|]; [discriminate |].
    destruct (insert_relationships_cases (r0 :: rels) (with_new_task ttl dsc db))
      as [[e ->] | ->]; simpl; [discriminate |].
    intros [= <-]. auto.
Qed.

Lemma insert_before_last r s x :
  position (row_task r) <= position (row_task x) ->
  insert_by_position r (s ++ [x]) = insert_by_position r s ++ [x].
Proof.
  intros Hle. induction s as [|y s IH]; simpl.
  - apply Z.leb_le in Hle. now rewrite Hle.
  - destruct (position (row_task r) <=? position (row_task y));
      [reflexivity | now rewrite IH].
Qed.

Lemma order_by_position_snoc l x :
  Forall (fun r => position (row_task r) <= position (row_task x)) l ->
  order_by_position (l ++ [x]) = order_by_position l ++ [x].
Proof.
  induction 1 as [|r l Hr _ IH]; simpl; [reflexivity |].
  change (fold_right insert_by_position [] (l ++ [x]))
    with (order_by_position (l ++ [x])).
  rewrite IH. now apply insert_before_last.
Qed.

(** X12.  A task that POST /tasks has just created stands last in the
    next GET /tasks response: its position exceeds every other. *)
Theorem created_task_listed_last ttl dsc ps cs (io io' : nat -> option string)
  (db : database) (taskId : Z) (ttl' dsc' : jsval) (out : list task_json) :
  let w := serve (POST_tasks ttl dsc ps cs) io db in
  res (exch w)
  = Some {| status := 200; json := json_created taskId ttl' dsc' |} ->
  res (exch (serve GET_tasks io' (store w)))
  = Some {| status := 200; json := json_tasks out |} ->
  exists out' a,
    out = out' ++ [a]
    /\ id (task_row a) = taskId
    /\ done (task_row a) = 0.
Proof.
  cbv zeta. intros Hpost Hget.
  apply post_200_store in Hpost as (Hp & Htasks & _).
  injection Hp as -> _ _.
  apply get_tasks_rows in Hget as (-> & _ & _).
  unfold group_by_id. rewrite Htasks.
  match goal with
  | |- context [map ?F (tasks db ++ [?x])] =>
      rewrite (map_app F); change (map F [x]) with [F x]
  end.
  rewrite order_by_position_snoc.
  - rewrite map_app. simpl. do 2 eexists. split; [reflexivity |].
    simpl. auto.
  - apply Forall_map. simpl. apply Forall_forall. intros t Hin.
    destruct (tasks db) as [|t0 l] eqn:Hl; [contradiction |].
    destruct (max_position_spec (t0 :: l)) as (m & -> & _ & Hle);
      [discriminate |].
    specialize (Hle t Hin). lia.
Qed.

Lemma created_task_listed_last_witness :
  exists out' a,
    map to_json
      (order_by_position
         (group_by_id
            (store (serve (POST_tasks (JStr "d") JNull (Some [SInt 1]) None)
                      no_fault db_three))))
    = out' ++ [a]
    /\ id (task_row a) = 4.
Proof.
  destruct (created_task_listed_last (JStr "d") JNull (Some [SInt 1]) None
              no_fault no_fault db_three 4 (JStr "d") JNull _ eq_refl eq_refl)
    as (out' & a & Hout & Hid & _).
  exists out', a. split; [exact Hout | exact Hid].
Defined.

(** The two arrays of a listed task, read against the relationship
    table of a store with integer ids. *)
Lemma listed_arrays io db out a :
  integer_ids db ->
  res (exch (serve GET_tasks io db))
  = Some {| status := 200; json := json_tasks out |} ->
  In a out ->
  (forall c, In (Num c) (child_tasks a)
             <-> In {| parent_id := SInt (id (task_row a)); child_id := SInt c |}
                    (task_relationships db))
  /\ (forall p, In (Num p) (parent_tasks a)
                <-> In {| parent_id := SInt p; child_id := SInt (id (task_row a)) |}
                       (task_relationships db)).
Proof.
  intros Hint Hget Ha. apply get_tasks_rows in Hget as (-> & _ & _).
  apply in_map_iff in Ha as (r & <- & Hr).
  apply (Permutation_in _ (order_by_position_perm _)) in Hr.
  unfold group_by_id in Hr. apply in_map_iff in Hr as (t & <- & Ht).
  unfold to_json. simpl.
  destruct (group_values_plain db t Ht Hint) as [Hcplain Hpplain].
  cbv zeta in Hcplain, Hpplain.
  destruct (id_array_group_concat _ Hcplain) as (cs & -> & _ & Hcin).
  destruct (id_array_group_concat _ Hpplain) as (ps & -> & _ & Hpin).
  assert (Hnum : forall (l : list Z) z, In (Num z) (map Num l) <-> In z l).
  { intros l z. rewrite in_map_iff. split; [intros (y & [= ->] & Hy) | eauto].
    exact Hy. }
  split.
  - intros c. rewrite Hnum, Hcin. now apply (group_children db t Ht).
  - intros p. rewrite Hnum, Hpin. now apply (group_parents db t Ht).
Qed.


(** X14.  Over a store whose relationship ids are NULL or integers that
    doubles hold, the two views of a relationship agree within one
    GET /tasks response: task [b] is among the [child_tasks] of task [a]
    exactly when [a] is among the [parent_tasks] of [b]. *)
Theorem relationship_views_agree (io : nat -> option string) (db : database)
  (out : list task_json) (a b : task_json) :
  integer_ids db ->
  res (exch (serve GET_tasks io db))
  = Some {| status := 200; json := json_tasks out |} ->
  In a out -> In b out ->
  (In (Num (id (task_row b))) (child_tasks a)
   <-> In (Num (id (task_row a))) (parent_tasks b)).
Proof.
  intros Hint Hget Ha Hb.
  destruct (listed_arrays _ _ _ _ Hint Hget Ha) as [Hchildren _].
  destruct (listed_arrays _ _ _ _ Hint Hget Hb) as [_ Hparents].
  now rewrite Hchildren, Hparents.
Qed.

Lemma relationship_views_agree_witness :
  let a := {| task_row := {| id := 1; title := JStr "a";
                             description := JNull;
                             done := 0; position := 0 |};
              child_tasks := [Num 3];
              parent_tasks := [Num 3] |} in
  let b := {| task_row := {| id := 3; title := JStr "c"; description := JNull;
                             done := 0; position := 2 |};
              child_tasks := [Num 1];
              parent_tasks := [Num 1; Num 2] |} in
  In (Num 3) (child_tasks a) <-> In (Num 1) (parent_tasks b).
Proof.
  intros a b.
  apply (relationship_views_agree no_fault db_three
           (map to_json (order_by_position (group_by_id db_three))) a b
           db_three_integer_ids eq_refl);
    vm_compute; auto.
Defined.

(** With a text id in the table the views part: task 3, created with
    [parentTasks: ["1,2"]], lists 1 among its [parent_tasks], and task 1
    does not list 3 among its [child_tasks]. *)
Example views_disagree_on_text :
  map (fun a => (id (task_row a), child_tasks a, parent_tasks a))
      (map to_json (order_by_position (group_by_id db_text)))
  = [(1, [], []); (2, [], []); (3, [], [Num 1; Num 2])].
Proof. vm_compute. reflexivity. Qed.



(** ** What the stored rows always satisfy *)

Lemma run_rows_valid fault q db :
  statement_valid q -> rows_valid db -> rows_valid (fst (run fault q db)).
Proof.
  intros Hq Hdb. destruct fault as [e|]; [exact Hdb |].
  unfold rows_valid in *. destruct q; simpl in *.
  - exact Hdb.
  - assert (Hnew : Forall row_valid (tasks db ++ [new_task ttl dsc db])).
    { apply Forall_app. split; [exact Hdb |]. constructor; [| constructor].
      unfold row_valid, new_task. simpl. split; [exact Hq |].
      split; [now left |].
      destruct (tasks db) as [|t0 l] eqn:Hl; [simpl; lia |].
      destruct (max_position_spec (t0 :: l)) as (m & -> & Hin & _);
        [discriminate |].
      apply in_map_iff in Hin as (u & <- & Hu).
      rewrite Forall_forall in Hdb. destruct (Hdb u Hu) as (_ & _ & Hpos).
      lia. }
    destruct ttl; try exact Hnew; exact Hdb.
  - destruct (insert_relationships_cases (bind_pairs relationshipValues) db)
      as [[e ->] | ->]; exact Hdb.
  - apply Forall_map. eapply Forall_impl; [| exact Hdb].
    intros t (Ht & Hd & Hp). destruct (id t =? taskId); repeat split; auto.
  - unfold update_done. destruct (text_to_integer param) as [k|]; [| exact Hdb].
    simpl. apply Forall_map. eapply Forall_impl; [| exact Hdb].
    intros t (Ht & Hd & Hp). destruct (id t =? k); repeat split; auto.
  - unfold delete_task. destruct (text_to_integer param) as [k|]; [| exact Hdb].
    simpl. apply Forall_forall. intros t Ht. apply filter_In in Ht as [Ht _].
    rewrite Forall_forall in Hdb. auto.
Qed.

Lemma update_jobs_valid (l : list Z) (index : Z) :
  0 <= index ->
  Forall (fun job => statement_valid (fst job)) (update_jobs l index).
Proof.
  revert index. induction l as [|k l IH]; intros index Hindex; simpl;
    constructor; [exact Hindex |]. apply IH. lia.
Qed.

Lemma handler_valid req :
  Forall (fun job => statement_valid (fst job)) (pending (handler req)).
Proof.
  destruct req as [| ttl dsc ps cs | [l|] | param dn | param]; simpl.
  - repeat constructor.
  - destruct (ToBoolean ttl) eqn:Ht; simpl; repeat constructor. exact Ht.
  - rewrite forEach_update_spec. simpl. apply update_jobs_valid. lia.
  - constructor.
  - constructor; [| constructor]. simpl. destruct (ToBoolean dn); auto.
  - repeat constructor.
Qed.

Lemma on_result_valid cb r x :
  Forall (fun job => statement_valid (fst job)) (pending x) ->
  Forall (fun job => statement_valid (fst job)) (pending (on_result cb r x)).
Proof.
  intros Hx. destruct cb; simpl; destruct (err r); simpl; try exact Hx.
  - destruct (0 <? Datatypes.length _)%nat; simpl; [| exact Hx].
    apply Forall_app. split; [exact Hx |]. repeat constructor.
  - destruct (changes r =? 0); [exact Hx |].
    destruct (throws_TypeError dn); exact Hx.
  - destruct (changes r =? 0); exact Hx.
Qed.

Lemma event_loop_rows_valid io fuel :
  forall w,
    rows_valid (store w) ->
    Forall (fun job => statement_valid (fst job)) (pending (exch w)) ->
    rows_valid (store (event_loop fuel io w)).
Proof.
  induction fuel as [|fuel IH]; intros w Hdb Hjobs; simpl; [exact Hdb |].
  unfold step. destruct (pending (exch w)) as [|[q cb] rest] eqn:Hp;
    [exact Hdb |].
  inversion Hjobs as [|? ? Hq Hrest]; subst.
  pose proof (run_rows_valid (io (clock w)) q (store w) Hq Hdb) as Hrun.
  destruct (run (io (clock w)) q (store w)) as [db' r]. simpl in Hrun.
  apply IH; simpl; [exact Hrun |]. now apply on_result_valid.
Qed.

(** X16.  The rows of [tasks] keep the shape the handlers give them: in
    every state the endpoints can reach, and after every request on a
    store that has the property, each task has a truthy title, a done
    flag that is 0 or 1, and a position that is not negative. *)
Theorem stored_rows_valid :
  (forall db, reachable db -> rows_valid db)
  /\ (forall req io db, rows_valid db -> rows_valid (store (serve req io db))).
Proof.
  assert (Hstep : forall req io db,
             rows_valid db -> rows_valid (store (serve req io db))).
  { intros req io db Hdb. unfold serve.
    apply event_loop_rows_valid; [exact Hdb | apply handler_valid]. }
  split; [| exact Hstep].
  induction 1 as [|req io db _ IH]; [constructor | now apply Hstep].
Qed.

Lemma stored_rows_valid_witness :
  rows_valid
    (store (serve (PUT_tasks_id "2" (JStr "yes")) no_fault
              (store (serve (PUT_tasks_reorder (Some [3; 1; 2])) no_fault
                        db_three)))).
Proof.
  apply (proj1 stored_rows_valid).
  do 2 constructor. apply db_three_reachable.
Defined.

